(** * DRTIO core wiring and scan objects of ARTIQ, verified over a shallow embedding

    Sources:
    - [artiq/gateware/drtio/core.py]: [GenericRXSynchronizer],
      [DRTIOSatellite], [DRTIOMaster];
    - [artiq/language/scan.py]: the scan objects, [Scannable] and
      [MultiScanManager].

    The gateware is Migen code: running a constructor builds a netlist.
    Constructors are embedded as computations in a small state monad that
    hands out object identities; the netlist they build is plain data
    (signals, [Cat], assignments, submodules, clock domains).  Python
    dictionaries are [gmap string _], Python integers are [Z], and the
    numbers a scan yields are exact rationals [Qc]. *)

From Stdlib Require Import ZArith QArith Qcanon Lia.
From stdpp Require Import gmap strings list fin_maps.

(* ===================================================================== *)
(** * Part I: definitions                                                 *)
(* ===================================================================== *)

(** ** The fragment of Migen used by [core.py] *)

Module Migen.

(** Python objects have an identity.  Every constructor call that creates
    a [Signal] draws a fresh identity from a counter threaded through the
    elaboration. *)
Definition Build (A : Type) : Type := nat → A * nat.

Definition ret {A} (a : A) : Build A := λ n, (a, n).
Definition bind {A B} (c : Build A) (k : A → Build B) : Build B :=
  λ n, let '(a, n') := c n in k a n'.

Declare Scope build_scope.
Delimit Scope build_scope with build.
Notation "'do' x <- c ; k" := (bind c (λ x, k))
  (at level 10, x name, c at level 100, k at level 200) : build_scope.
Notation "'do' ' p <- c ; k" := (bind c (λ x, let 'p := x in k))
  (at level 10, p strict pattern, c at level 100, k at level 200)
  : build_scope.

(** [Signal(bits_sign=(nbits, signed), related=...)]. *)
Record Signal := mkSignal {
  uid : nat;
  nbits : nat;
  signed : bool;
  related : option nat
}.

#[global] Instance Signal_eq_dec : EqDecision Signal.
Proof. solve_decision. Defined.

Definition Signal_new (bits : nat) (sgn : bool) (rel : option nat)
  : Build Signal :=
  λ n, (mkSignal n bits sgn rel, S n).

(** A one-bit signal with identity [u], as the constructors create them. *)
Definition bit (u : nat) : Signal := mkSignal u 1 false None.

(** The signal [Signal.like(s, related=s)] creates when the next free
    identity is [n]. *)
Definition like (n : nat) (s : Signal) : Signal :=
  mkSignal n (nbits s) (signed s) (Some (uid s)).

(** [Signal.like(other, related=r)] is
    [Signal(bits_sign=value_bits_sign(other), related=r)]. *)
Definition Signal_like (other : Signal) (rel : option Signal)
  : Build Signal :=
  Signal_new (nbits other) (signed other) (uid <$> rel).

(** Expressions: a signal, [Cat] of signals, [ClockSignal(cd)]. *)
Inductive Value :=
| VSignal (s : Signal)
| VCat (l : list Signal)
| VClockSignal (cd : string).

#[global] Instance Value_eq_dec : EqDecision Value.
Proof. solve_decision. Defined.

(** [lhs.eq(rhs)]. *)
Inductive Statement := Assign (lhs rhs : Value).

#[global] Instance Statement_eq_dec : EqDecision Statement.
Proof. solve_decision. Defined.

(** [len(v)]. *)
Definition len (v : Value) : nat :=
  match v with
  | VSignal s => nbits s
  | VCat l => sum_list (nbits <$> l)
  | VClockSignal _ => 1
  end.

(** [ElasticBuffer(width, depth, idomain, odomain)]: the constructor
    arguments and the two ports [din], [dout], both [Signal(width)]. *)
Record ElasticBuffer := mkElasticBuffer {
  eb_width : nat;
  eb_depth : nat;
  eb_idomain : string;
  eb_odomain : string;
  din : Signal;
  dout : Signal
}.

Definition ElasticBuffer_new (width depth : nat) (idomain odomain : string)
  : Build ElasticBuffer :=
  (do i <- Signal_new width false None;
   do o <- Signal_new width false None;
   ret (mkElasticBuffer width depth idomain odomain i o))%build.

(** [ClockDomain()] without a name: Migen takes the name of the attribute
    the domain is assigned to and strips a leading [cd_]. *)
Record ClockDomain := mkClockDomain {
  cd_name : string;
  clk : Signal;
  rst : Signal
}.

Definition strip_cd (attr : string) : string :=
  if String.prefix "cd_" attr
  then String.substring 3 (String.length attr - 3) attr
  else attr.

Definition ClockDomain_new (attr : string) : Build ClockDomain :=
  (do c <- Signal_new 1 false None;
   do r <- Signal_new 1 false None;
   ret (mkClockDomain (strip_cd attr) c r))%build.

(** *** Bit-level meaning of [Cat] and of assignment

    A signal of [w] bits carries a bit pattern in [[0, 2^w)].  [Cat] puts
    its first operand in the least significant bits.  Assigning a word
    to [Cat(s1, ..., sn)] gives [s1] the low [len(s1)] bits, [s2] the
    next [len(s2)] bits, and so on. *)

Definition trunc (w : nat) (v : Z) : Z := (v mod 2 ^ Z.of_nat w)%Z.

Fixpoint cat_value (l : list (nat * Z)) : Z :=
  match l with
  | [] => 0%Z
  | (w, v) :: r => Z.lor (trunc w v) (Z.shiftl (cat_value r) (Z.of_nat w))
  end.

Fixpoint split_value (ws : list nat) (x : Z) : list Z :=
  match ws with
  | [] => []
  | w :: r => trunc w x :: split_value r (Z.shiftr x (Z.of_nat w))
  end.

(** Bit offset of each operand inside a [Cat]. *)
Fixpoint offsets (from : nat) (ws : list nat) : list nat :=
  match ws with
  | [] => []
  | w :: r => from :: offsets (from + w) r
  end.

(** The right-hand sides assigned to [lhs] by a list of statements, and
    the left-hand sides that [rhs] is assigned to. *)
Definition drivers (stmts : list Statement) (lhs : Value) : list Value :=
  omap (λ st, match st with
              | Assign l r => if decide (l = lhs) then Some r else None
              end) stmts.

Definition driven_by (stmts : list Statement) (rhs : Value) : list Value :=
  omap (λ st, match st with
              | Assign l r => if decide (r = rhs) then Some l else None
              end) stmts.

(** An environment gives every signal (by identity) its current value. *)
Definition env := nat → Z.

Definition read (e : env) (s : Signal) : Z := trunc (nbits s) (e (uid s)).

Definition eval (e : env) (v : Value) : option Z :=
  match v with
  | VSignal s => Some (read e s)
  | VCat l => Some (cat_value ((λ s, (nbits s, e (uid s))) <$> l))
  | VClockSignal _ => None
  end.

(** The signals an assignment to [lhs] drives, with the value each one
    receives when the right-hand side evaluates to [x]. *)
Definition assign (lhs : Value) (x : Z) : list (Signal * Z) :=
  match lhs with
  | VSignal s => [(s, trunc (nbits s) x)]
  | VCat l => zip l (split_value (nbits <$> l) x)
  | VClockSignal _ => []
  end.

(** A combinatorial statement holds in [e] when every driven signal
    carries the value assigned to it. *)
Definition stmt_holds (e : env) (st : Statement) : Prop :=
  match st with
  | Assign lhs rhs =>
      ∃ x, eval e rhs = Some x ∧
           Forall (λ '(s, v), read e s = v) (assign lhs x)
  end.

(** The signals a list of statements assigns to: the left-hand side
    itself, or every operand of a [Cat] on the left. *)
Definition driven_signals (stmts : list Statement) : list Signal :=
  stmts ≫= λ st, match st with
                 | Assign (VSignal s) _ => [s]
                 | Assign (VCat l) _ => l
                 | Assign (VClockSignal _) _ => []
                 end.

End Migen.

(** ** [artiq/gateware/drtio/core.py] *)

Module Drtio.
Import Migen.
Local Open Scope build_scope.

(** *** [class GenericRXSynchronizer(Module)] *)
Module GenericRXSynchronizer.

(** [self.signals], and the two [Module] collections the class uses. *)
Record t := mk {
  signals : list (Signal * Signal);
  submodules : list ElasticBuffer;
  comb : list Statement
}.

Definition __init__ : t := mk [] [] [].

(** [[
    def resync(self, signal):
        synchronized = Signal.like(signal, related=signal)
        self.signals.append((signal, synchronized))
        return synchronized
    ]] *)
Definition resync (self : t) (signal : Signal) : Build (Signal * t) :=
  do synchronized <- Signal_like signal (Some signal);
  ret (synchronized,
       mk (signals self ++ [(signal, synchronized)])
          (submodules self) (comb self)).

(** [[
    def do_finalize(self):
        eb = ElasticBuffer(sum(len(s[0]) for s in self.signals), 4,
                           "rtio_rx", "rtio")
        self.submodules += eb
        self.comb += [
            eb.din.eq(Cat( *[s[0] for s in self.signals])),
            Cat( *[s[1] for s in self.signals]).eq(eb.dout)
        ]
    ]] *)
Definition do_finalize (self : t) : Build t :=
  do eb <- ElasticBuffer_new
             (sum_list ((λ s, len (VSignal s.1)) <$> signals self)) 4
             "rtio_rx" "rtio";
  ret (mk (signals self)
          (submodules self ++ [eb])
          (comb self ++
           [ Assign (VSignal (din eb)) (VCat (fst <$> signals self));
             Assign (VCat (snd <$> signals self)) (VSignal (dout eb)) ])).

(** A caller registering a sequence of signals, one [resync] call per
    signal, in order. *)
Fixpoint resync_all (self : t) (l : list Signal)
  : Build (list Signal * t) :=
  match l with
  | [] => ret ([], self)
  | s :: r =>
      do '(o, self1) <- resync self s;
      do '(os, self2) <- resync_all self1 r;
      ret (o :: os, self2)
  end.

(** The life of a synchronizer: created, [resync] called on each
    signal of [l] in turn, then finalized.  Returns the synchronized
    signals handed back to the caller and the finalized module. *)
Definition elaborate (l : list Signal) : Build (list Signal * t) :=
  do '(outs, self) <- resync_all __init__ l;
  do self <- do_finalize self;
  ret (outs, self).

(** The signals [resync] creates for the signals of [l], the first one
    with identity [n]. *)
Fixpoint fresh_like (n : nat) (l : list Signal) : list Signal :=
  match l with
  | [] => []
  | s :: l => like n s :: fresh_like (S n) l
  end.

(** The elastic buffer [do_finalize] creates after [l] was registered
    by a design whose next free identity was [n]. *)
Definition buffer_of (n : nat) (l : list Signal) : ElasticBuffer :=
  let w := sum_list (nbits <$> l) in
  mkElasticBuffer w 4 "rtio_rx" "rtio"
    (mkSignal (n + length l) w false None)
    (mkSignal (S (n + length l)) w false None).

(** A circuit state satisfies the combinatorial statements of the
    module. *)
Definition comb_holds (self : t) (e : env) : Prop :=
  Forall (stmt_holds e) (comb self).

(** Every synchronized signal reads, in [er], what its original reads
    in [ew]. *)
Definition carries (self : t) (ew er : env) : Prop :=
  ∀ i s o, signals self !! i = Some (s, o) → read er o = read ew s.

End GenericRXSynchronizer.

(** *** Collaborators of this package that [core.py] instantiates

    [link_layer], [rt_packet_satellite], [rt_ios_satellite],
    [rt_packet_master], [rt_controller_master] and [aux_controller] are
    sibling modules.  [core.py] only calls their constructors and reads
    the attributes below, so each is a record of its constructor
    arguments and of the signals [core.py] reads. *)

(** The attributes of a link layer that upper layers read: the namespace
    [link_layer_sync] has exactly these, and a [LinkLayer] has them too. *)
Record LinkPorts := mkLinkPorts {
  tx_aux_frame : Signal;
  tx_aux_data : Signal;
  tx_aux_ack : Signal;
  tx_rt_frame : Signal;
  tx_rt_data : Signal;
  rx_aux_stb : Signal;
  rx_aux_frame : Signal;
  rx_aux_frame_perm : Signal;
  rx_aux_data : Signal;
  rx_rt_frame : Signal;
  rx_rt_frame_perm : Signal;
  rx_rt_data : Signal
}.

Definition tx_ports (p : LinkPorts) : list Signal :=
  [tx_aux_frame p; tx_aux_data p; tx_aux_ack p; tx_rt_frame p; tx_rt_data p].

Definition rx_ports (p : LinkPorts) : list Signal :=
  [rx_aux_stb p; rx_aux_frame p; rx_aux_frame_perm p; rx_aux_data p;
   rx_rt_frame p; rx_rt_frame_perm p; rx_rt_data p].

Record Transceiver := mkTransceiver {
  encoder : nat;
  decoders : list nat;
  trx_rx_ready : Signal
}.

Record LinkLayer := mkLinkLayer {
  ll_encoder : nat;
  ll_decoders : list nat;
  rx_ready : Signal;
  ports : LinkPorts
}.

(** Modelled from the spec: [link_layer.LinkLayer(encoder, decoders)].
    The link layer (spec 4.1) exposes [rx_ready] and, per sub-channel, a
    frame / frame-valid-after-delay / data triple on receive and the
    symmetric signals on transmit.  Each is a signal of its own; the data
    ports are [width] bits wide, the others one bit. *)
Definition LinkLayer_new (width : nat) (enc : nat) (decs : list nat)
  : Build LinkLayer :=
  do rdy <- Signal_new 1 false None;
  do taf <- Signal_new 1 false None;
  do tad <- Signal_new width false None;
  do tak <- Signal_new 1 false None;
  do trf <- Signal_new 1 false None;
  do trd <- Signal_new width false None;
  do ras <- Signal_new 1 false None;
  do raf <- Signal_new 1 false None;
  do rap <- Signal_new 1 false None;
  do rad <- Signal_new width false None;
  do rrf <- Signal_new 1 false None;
  do rrp <- Signal_new 1 false None;
  do rrd <- Signal_new width false None;
  ret (mkLinkLayer enc decs rdy
         (mkLinkPorts taf tad tak trf trd ras raf rap rad rrf rrp rrd)).

(** The link layer of a design whose next free identity is [n]. *)
Definition link_layer_at (link_width : nat) (trx : Transceiver) (n : nat)
  : LinkLayer :=
  (LinkLayer_new link_width (encoder trx) (decoders trx) n).1.

(** The namespace [link_layer_sync] that the default synchronizer builds
    from the ports [ll] when the next free identity is [k]. *)
Definition default_sync_ports (ll : LinkPorts) (k : nat) : LinkPorts :=
  {| tx_aux_frame := tx_aux_frame ll;
     tx_aux_data := tx_aux_data ll;
     tx_aux_ack := tx_aux_ack ll;
     tx_rt_frame := tx_rt_frame ll;
     tx_rt_data := tx_rt_data ll;
     rx_aux_stb := like k (rx_aux_stb ll);
     rx_aux_frame := like (1 + k) (rx_aux_frame ll);
     rx_aux_frame_perm := like (2 + k) (rx_aux_frame_perm ll);
     rx_aux_data := like (3 + k) (rx_aux_data ll);
     rx_rt_frame := like (4 + k) (rx_rt_frame ll);
     rx_rt_frame_perm := like (5 + k) (rx_rt_frame_perm ll);
     rx_rt_data := like (6 + k) (rx_rt_data ll) |}.

(** [link_layer.LinkLayerStats(link_layer, clock_domain)]. *)
Record LinkLayerStats := mkLinkLayerStats {
  lls_link : LinkPorts;
  lls_domain : string
}.

(** Modelled from the spec: [rt_packet_satellite.RTPacketSatellite(link)].
    The satellite packet engine (spec 4.3) has a reset and a reset-phy
    output for the downstream logic domains. *)
Record RTPacketSatellite := mkRTPacketSatellite {
  rps_link : LinkPorts;
  reset : Signal;
  reset_phy : Signal
}.

Definition RTPacketSatellite_new (link : LinkPorts)
  : Build RTPacketSatellite :=
  do r <- Signal_new 1 false None;
  do rp <- Signal_new 1 false None;
  ret (mkRTPacketSatellite link r rp).

(** [ClockDomainsRenamer(cd_remapping)(module)]: a string argument [d]
    stands for the remapping [{"sys": d}].  Attribute accesses on the
    result reach the wrapped module. *)
Record Renamed (A : Type) := mkRenamed {
  cd_remapping : gmap string string;
  wrapped : A
}.
Arguments mkRenamed {A}.
Arguments cd_remapping {A}.
Arguments wrapped {A}.

Definition ClockDomainsRenamer {A} (d : string) (m : A) : Renamed A :=
  mkRenamed {[ "sys" := d ]} m.

(** [rt_ios_satellite.IOS(rt_packet, channels, fine_ts_width,
    full_ts_width)]. *)
Record IOS (Channel : Type) := mkIOS {
  ios_rt_packet : Renamed RTPacketSatellite;
  ios_channels : list Channel;
  ios_fine_ts_width : Z;
  ios_full_ts_width : Z
}.
Arguments mkIOS {Channel}.
Arguments ios_rt_packet {Channel}.
Arguments ios_channels {Channel}.
Arguments ios_fine_ts_width {Channel}.
Arguments ios_full_ts_width {Channel}.

(** [aux_controller.AuxController(link_layer)]. *)
Record AuxController := mkAuxController {
  aux_link_layer : LinkLayer
}.

(** [rt_packet_master.RTPacketMaster(link_layer)]. *)
Record RTPacketMaster := mkRTPacketMaster {
  rpm_link : LinkLayer
}.

(** [rt_controller_master.RTController(rt_packet, channel_count,
    fine_ts_width)] and [rt_controller_master.RTManager(rt_packet)]. *)
Record RTController := mkRTController {
  rtc_rt_packet : RTPacketMaster;
  rtc_channel_count : Z;
  rtc_fine_ts_width : Z
}.

Record RTManager := mkRTManager {
  rtm_rt_packet : RTPacketMaster
}.

(** *** [class DRTIOSatellite(Module)] *)
Module DRTIOSatellite.
Section WithSynchronizer.

(** A caller may pass any object with a [resync] method as
    [rx_synchronizer]: [S] is the state of such an object and
    [supplied_resync] its method.  The method may update the object
    and create objects of its own: it is given the next free identity
    and reports how many identities it used.  [link_width] is the
    width of the link layer's data ports. *)
Context {S Channel : Type}.
Variable supplied_resync : S → Signal → nat → Signal * S * nat.
Variable link_width : nat.

Definition call_supplied (s : S) (signal : Signal) : Build (Signal * S) :=
  λ n, let '(o, s1, used) := supplied_resync s signal n in
       ((o, s1), n + used).

(** What it is for a supplied object [s] to be used for the signals of
    [l]: its own [resync] is called on each of them in turn, every call
    on the state the call before left and with the identities still
    free.  Gives the signals the calls return, the last state of the
    object and the next free identity. *)
Fixpoint supplied_calls (s : S) (l : list Signal) (k : nat)
  : list Signal * S * nat :=
  match l with
  | [] => ([], s, k)
  | x :: l =>
      let '(o, s1, used) := supplied_resync s x k in
      let '(os, s2, k2) := supplied_calls s1 l (k + used) in
      (o :: os, s2, k2)
  end.

(** The object bound to [rx_synchronizer] after the first two lines of
    the constructor. *)
Inductive RXSynchronizer :=
| Default (g : GenericRXSynchronizer.t)
| Supplied (s : S).

(** [rx_synchronizer.resync(signal)], dispatched on the object. *)
Definition resync (r : RXSynchronizer) (signal : Signal)
  : Build (Signal * RXSynchronizer) :=
  match r with
  | Default g =>
      do '(o, g1) <- GenericRXSynchronizer.resync g signal;
      ret (o, Default g1)
  | Supplied s =>
      do '(o, s1) <- call_supplied s signal;
      ret (o, Supplied s1)
  end.

(** The calls [rx_synchronizer.resync(s)] for the signals [s] of [l],
    one after the other. *)
Fixpoint resync_each (r : RXSynchronizer) (l : list Signal)
  : Build (list Signal * RXSynchronizer) :=
  match l with
  | [] => ret ([], r)
  | s :: l =>
      do '(o, r1) <- resync r s;
      do '(os, r2) <- resync_each r1 l;
      ret (o :: os, r2)
  end.

Inductive Submodule :=
| SubRXSynchronizer (g : GenericRXSynchronizer.t)
| SubLinkLayer (l : LinkLayer)
| SubLinkLayerStats (s : LinkLayerStats)
| SubRTPacket (r : Renamed RTPacketSatellite)
| SubIOS (i : IOS Channel)
| SubAuxController (a : AuxController).

(** The attributes the constructor sets.  [submodules] lists the
    submodules in the order they are added, each with the attribute
    name it was added under ([None] for [self.submodules += m]). *)
Record t := mk {
  submodules : list (option string * Submodule);
  link_layer : LinkLayer;
  link_stats : LinkLayerStats;
  rt_packet : Renamed RTPacketSatellite;
  ios : IOS Channel;
  clock_domains : list ClockDomain;
  cd_rio : ClockDomain;
  cd_rio_phy : ClockDomain;
  comb : list Statement;
  aux_controller : AuxController
}.

(** [[
    link_layer_sync = SimpleNamespace(
        tx_aux_frame=self.link_layer.tx_aux_frame,
        ...
        rx_aux_stb=rx_synchronizer.resync(self.link_layer.rx_aux_stb),
        ...
        rx_rt_data=rx_synchronizer.resync(self.link_layer.rx_rt_data))
    ]]
    The keyword arguments are evaluated in the order written.  [ll]
    holds the attributes of [self.link_layer]. *)
Definition make_link_layer_sync (r0 : RXSynchronizer) (ll : LinkPorts)
  : Build (LinkPorts * RXSynchronizer) :=
  do '(s_aux_stb, r1) <- resync r0 (rx_aux_stb ll);
  do '(s_aux_frame, r2) <- resync r1 (rx_aux_frame ll);
  do '(s_aux_frame_perm, r3) <- resync r2 (rx_aux_frame_perm ll);
  do '(s_aux_data, r4) <- resync r3 (rx_aux_data ll);
  do '(s_rt_frame, r5) <- resync r4 (rx_rt_frame ll);
  do '(s_rt_frame_perm, r6) <- resync r5 (rx_rt_frame_perm ll);
  do '(s_rt_data, r7) <- resync r6 (rx_rt_data ll);
  ret ({| tx_aux_frame := tx_aux_frame ll;
          tx_aux_data := tx_aux_data ll;
          tx_aux_ack := tx_aux_ack ll;
          tx_rt_frame := tx_rt_frame ll;
          tx_rt_data := tx_rt_data ll;
          rx_aux_stb := s_aux_stb;
          rx_aux_frame := s_aux_frame;
          rx_aux_frame_perm := s_aux_frame_perm;
          rx_aux_data := s_aux_data;
          rx_rt_frame := s_rt_frame;
          rx_rt_frame_perm := s_rt_frame_perm;
          rx_rt_data := s_rt_data |},
       r7).

(** [[
    def __init__(self, transceiver, channels, rx_synchronizer=None,
                 fine_ts_width=3, full_ts_width=63):
    ]]
    An omitted keyword argument is [None] here.  The synchronizer is a
    shared mutable object: the constructor returns its state after the
    seven [resync] calls next to the satellite, and the entry in
    [submodules] (a reference to the same object) shows that state. *)
Definition __init__ (transceiver : Transceiver) (channels : list Channel)
    (rx_synchronizer : option S) (fine_ts_width full_ts_width : option Z)
  : Build (t * RXSynchronizer) :=
  let fine_ts_width := default 3%Z fine_ts_width in
  let full_ts_width := default 63%Z full_ts_width in
  let r0 := match rx_synchronizer with
            | None => Default GenericRXSynchronizer.__init__
            | Some s => Supplied s
            end in
  do link_layer <- LinkLayer_new link_width
                     (encoder transceiver) (decoders transceiver);
  let comb1 := [ Assign (VSignal (rx_ready link_layer))
                        (VSignal (trx_rx_ready transceiver)) ] in
  do '(link_layer_sync, r7) <-
    make_link_layer_sync r0 (ports link_layer);
  let link_stats := mkLinkLayerStats link_layer_sync "rtio" in
  do engine <- RTPacketSatellite_new link_layer_sync;
  let rt_packet := ClockDomainsRenamer "rtio" engine in
  let ios := mkIOS rt_packet channels fine_ts_width full_ts_width in
  do cd_rio <- ClockDomain_new "cd_rio";
  do cd_rio_phy <- ClockDomain_new "cd_rio_phy";
  let comb2 :=
    [ Assign (VSignal (clk cd_rio)) (VClockSignal "rtio");
      Assign (VSignal (rst cd_rio)) (VSignal (reset (wrapped rt_packet)));
      Assign (VSignal (clk cd_rio_phy)) (VClockSignal "rtio");
      Assign (VSignal (rst cd_rio_phy))
             (VSignal (reset_phy (wrapped rt_packet))) ] in
  let aux_controller := mkAuxController link_layer in
  let sync_sub :=
    match rx_synchronizer, r7 with
    | None, Default g => [ (None, SubRXSynchronizer g) ]
    | _, _ => []
    end in
  ret (mk (sync_sub ++
           [ (Some "link_layer", SubLinkLayer link_layer);
             (Some "link_stats", SubLinkLayerStats link_stats);
             (Some "rt_packet", SubRTPacket rt_packet);
             (Some "ios", SubIOS ios);
             (Some "aux_controller", SubAuxController aux_controller) ])
          link_layer link_stats rt_packet ios
          [cd_rio; cd_rio_phy] cd_rio cd_rio_phy
          (comb1 ++ comb2)
          aux_controller,
       r7).

(** The two downstream domains and what drives their clocks and
    resets, as one property of a constructed satellite: [rio] and
    [rio_phy] are its clock domains, each clock has the [rtio] clock as
    its only driver, the reset of [rio] has the engine's [reset] as its
    only driver and the reset of [rio_phy] the engine's [reset_phy],
    and neither engine output drives anything else. *)
Definition reset_domains_wired (sat : t) : Prop :=
  let engine := wrapped (rt_packet sat) in
  clock_domains sat = [cd_rio sat; cd_rio_phy sat] ∧
  cd_name (cd_rio sat) = "rio" ∧
  cd_name (cd_rio_phy sat) = "rio_phy" ∧
  drivers (comb sat) (VSignal (clk (cd_rio sat)))
    = [VClockSignal "rtio"] ∧
  drivers (comb sat) (VSignal (clk (cd_rio_phy sat)))
    = [VClockSignal "rtio"] ∧
  drivers (comb sat) (VSignal (rst (cd_rio sat)))
    = [VSignal (reset engine)] ∧
  drivers (comb sat) (VSignal (rst (cd_rio_phy sat)))
    = [VSignal (reset_phy engine)] ∧
  driven_by (comb sat) (VSignal (reset engine))
    = [VSignal (rst (cd_rio sat))] ∧
  driven_by (comb sat) (VSignal (reset_phy engine))
    = [VSignal (rst (cd_rio_phy sat))].

End WithSynchronizer.
End DRTIOSatellite.

(** *** [class DRTIOMaster(Module)] *)
Module DRTIOMaster.

Record t := mk {
  link_layer : LinkLayer;
  comb : list Statement;
  link_stats : LinkLayerStats;
  rt_packet : RTPacketMaster;
  rt_controller : RTController;
  rt_manager : RTManager;
  aux_controller : AuxController
}.

(** [[
    def __init__(self, transceiver, channel_count=1024, fine_ts_width=3):
    ]]
    [self.cri = self.rt_controller.cri] is an alias of an attribute of
    the controller and adds no state. *)
Definition __init__ (link_width : nat) (transceiver : Transceiver)
    (channel_count fine_ts_width : option Z) : Build t :=
  let channel_count := default 1024%Z channel_count in
  let fine_ts_width := default 3%Z fine_ts_width in
  do link_layer <- LinkLayer_new link_width
                     (encoder transceiver) (decoders transceiver);
  let comb := [ Assign (VSignal (rx_ready link_layer))
                       (VSignal (trx_rx_ready transceiver)) ] in
  let link_stats := mkLinkLayerStats (ports link_layer) "rtio_rx" in
  let rt_packet := mkRTPacketMaster link_layer in
  let rt_controller :=
    mkRTController rt_packet channel_count fine_ts_width in
  let rt_manager := mkRTManager rt_packet in
  ret (mk link_layer comb link_stats rt_packet rt_controller rt_manager
          (mkAuxController link_layer)).

End DRTIOMaster.

End Drtio.

(** ** The elastic buffer as a bounded queue *)

Module Bridge.

(** One move of either side of the buffer: the [recovered] side writes
    the word on [din], the [local] side reads a word on [dout]. *)
Inductive Op := Write (word : Z) | Read.

Definition writes (ops : list Op) : list Z :=
  omap (λ op, match op with Write w => Some w | Read => None end) ops.

(** Modelled from the spec: [ElasticBuffer] is Migen's, not this
    package's; its behaviour is taken from spec 4.2 and 9, a bounded
    single-producer single-consumer queue of fixed capacity.  [run depth
    q ops] plays [ops] from the queue content [q] and returns the words
    read, in order, with the final content.  A write into a full buffer
    is the overflow the spec rules out by construction ([None]); a read
    of an empty buffer delivers nothing. *)
Fixpoint run (depth : nat) (q : list Z) (ops : list Op)
  : option (list Z * list Z) :=
  match ops with
  | [] => Some ([], q)
  | Write w :: r =>
      if decide (length q < depth) then run depth (q ++ [w]) r else None
  | Read :: r =>
      match q with
      | [] => run depth [] r
      | x :: q' =>
          match run depth q' r with
          | Some (out, qf) => Some (x :: out, qf)
          | None => None
          end
      end
  end.

End Bridge.

(** ** The RT command stream of one link *)

Module RTLink.

(** The command kinds of spec 3. *)
Inductive RTCommand :=
| WriteEvent (channel timestamp data : Z)
| ReadRequest (channel timeout : Z)
| EchoRequest
| Reset
| ResetPhy.

(** Modelled from the spec: the packet engines and the link layer
    ([rt_packet_master], [rt_packet_satellite], [link_layer]) are not in
    [core.py].  From spec 3, 4.1, 4.2 and 4.3: the master puts each
    command it issues on the RT sub-channel as one frame, frames of a
    sub-channel do not overlap, a corrupted frame is dropped by the link
    layer and counted, a received frame crosses the clock-domain bridge
    (depth 4), and the satellite engine takes commands from the bridge
    one at a time. *)
Record State := mkState {
  issued : list RTCommand;      (* every command the master issued *)
  in_flight : list RTCommand;   (* frames on the link, oldest first *)
  bridged : list RTCommand;     (* frames inside the bridge, oldest first *)
  observed : list RTCommand;    (* commands the satellite engine decoded *)
  frame_errors : nat            (* link statistics *)
}.

Definition initial : State := mkState [] [] [] [] 0.

Definition bridge_depth : nat := 4.

Inductive Event :=
| Issue (c : RTCommand)   (* master: issue a command *)
| Corrupt                 (* link: the oldest frame fails its check *)
| Receive                 (* link layer: the oldest frame enters the bridge *)
| Observe.                (* satellite: take the oldest bridged frame *)

(** One step while the link is up.  An event that cannot happen in the
    current state leaves it unchanged. *)
Definition step (s : State) (e : Event) : State :=
  match e with
  | Issue c =>
      mkState (issued s ++ [c]) (in_flight s ++ [c]) (bridged s)
              (observed s) (frame_errors s)
  | Corrupt =>
      match in_flight s with
      | [] => s
      | _ :: fs =>
          mkState (issued s) fs (bridged s) (observed s)
                  (S (frame_errors s))
      end
  | Receive =>
      match in_flight s with
      | [] => s
      | f :: fs =>
          if decide (length (bridged s) < bridge_depth)
          then mkState (issued s) fs (bridged s ++ [f]) (observed s)
                       (frame_errors s)
          else s
      end
  | Observe =>
      match bridged s with
      | [] => s
      | f :: bs =>
          mkState (issued s) (in_flight s) bs (observed s ++ [f])
                  (frame_errors s)
      end
  end.

Definition run (s : State) (es : list Event) : State := foldl step s es.

(** What the satellite has decoded, followed by what is still in the
    bridge and on the link, is an order-preserving selection of what the
    master issued, and the bridge never holds more than its depth. *)
Definition stream_inv (s : State) : Prop :=
  (observed s ++ bridged s ++ in_flight s) `sublist_of` issued s ∧
  length (bridged s) ≤ bridge_depth.

(** As [stream_inv], when no frame was dropped: nothing is missing. *)
Definition lossless_inv (s : State) : Prop :=
  observed s ++ bridged s ++ in_flight s = issued s.

End RTLink.

(** ** [artiq/language/scan.py] *)

Module Scan.

(** The Python values that occur in a scan description. *)
Inductive pyval :=
| PNone
| PStr (s : string)
| PInt (z : Z)
| PNum (q : Qc)
| PList (l : list Qc).

#[global] Instance pyval_eq_dec : EqDecision pyval.
Proof. solve_decision. Defined.

Inductive exn :=
  KeyError | TypeError | NameError | AttributeError | ValueError.

Inductive result (A : Type) := Ok (a : A) | Raise (e : exn).
Arguments Ok {A}.
Arguments Raise {A}.

(** [range(n)]: empty when [n <= 0]. *)
Definition range (n : Z) : list Z := Z.of_nat <$> seq 0 (Z.to_nat n).

(** The [random] module: [Rng] is the state of a generator and
    [shuffle l g] is [random.shuffle(l, rf)] for the [random] method [rf]
    of a generator in state [g].  [Random] is the object the
    global name [Random] denotes inside [scan.py], if it denotes one:
    [scan.py] does [import random] and defines no [Random] itself, so
    the name is bound only if [from artiq.language.core import *] binds
    it; unbound, evaluating it raises [NameError]. *)
Class PyRandom := {
  Rng : Type;
  shuffle : list Qc → Rng → list Qc * Rng;
  Random : option (Z → Rng)
}.

(** A stand-in generator for concrete examples: its shuffle reverses the
    list, and the name [Random] is unbound. *)
Definition reversing_random : PyRandom :=
  {| Rng := unit; shuffle := λ l g, (reverse l, g); Random := None |}.

(** A second stand-in, in which [Random] is bound: a generator is a
    number, [Random(seed)] starts it at [seed], and a shuffle rotates the
    list by the state and advances the state by one. *)
Definition rotating_random : PyRandom :=
  {| Rng := Z;
     shuffle := λ l g, (rotate (Z.to_nat g) l, (g + 1)%Z);
     Random := Some (λ seed, seed) |}.

(** *** [class NoScan(ScanObject)] *)
Module NoScan.
Record t := mk { value : Qc; repetitions : Z }.

Definition _gen (self : t) : list Qc :=
  (λ _, value self) <$> range (repetitions self).
Definition __iter__ (self : t) : list Qc := _gen self.
Definition __len__ (self : t) : Z := repetitions self.
Definition describe (self : t) : gmap string pyval :=
  {[ "ty" := PStr "NoScan"; "value" := PNum (value self);
     "repetitions" := PInt (repetitions self) ]}.
End NoScan.

(** *** [class LinearScan(ScanObject)] *)
Module LinearScan.
Record t := mk { start : Qc; stop : Qc; npoints : Z }.

(** [[
    def _gen(self):
        if self.npoints == 0:
            return
        if self.npoints == 1:
            yield self.start
        else:
            dx = (self.stop - self.start)/(self.npoints - 1)
            for i in range(self.npoints):
                yield i*dx + self.start
    ]]
    [start] and [stop] are exact rationals and the arithmetic is exact,
    as Python's is on arguments of an exact type such as
    [fractions.Fraction].  On floats every operation rounds: what is
    proved of the values themselves is proved of the exact
    computation, and says so. *)
Definition _gen (self : t) : list Qc :=
  if decide (npoints self = 0%Z) then []
  else if decide (npoints self = 1%Z) then [start self]
  else
    let dx := ((stop self - start self) / Qc_of_Z (npoints self - 1))%Qc in
    (λ i, (Qc_of_Z i * dx + start self)%Qc) <$> range (npoints self).
Definition __iter__ (self : t) : list Qc := _gen self.
Definition __len__ (self : t) : Z := npoints self.
Definition describe (self : t) : gmap string pyval :=
  {[ "ty" := PStr "LinearScan";
     "start" := PNum (start self); "stop" := PNum (stop self);
     "npoints" := PInt (npoints self) ]}.

(** Specification of one full iteration of a linear scan: [npoints]
    values, [__len__] equal to [npoints]; nothing for [npoints = 0], only
    [start] for [npoints = 1], and for [npoints >= 2] values from [start]
    to [stop] with the constant step [(stop - start)/(npoints - 1)]. *)
Definition iteration_spec (self : t) : Prop :=
  let vs := __iter__ self in
  Z.of_nat (length vs) = npoints self ∧
  __len__ self = npoints self ∧
  (npoints self = 0%Z → vs = []) ∧
  (npoints self = 1%Z → vs = [start self]) ∧
  ((2 ≤ npoints self)%Z →
     head vs = Some (start self) ∧
     last vs = Some (stop self) ∧
     ∀ i x y, vs !! i = Some x → vs !! S i = Some y →
              (y - x)%Qc
              = ((stop self - start self) / Qc_of_Z (npoints self - 1))%Qc).
End LinearScan.

(** *** [class RandomScan(ScanObject)] *)
Module RandomScan.
(** The attributes of a constructed object.  The constructor raises for
    a negative [npoints] (see below), so the attribute [npoints] of an
    object that exists is a natural number. *)
Record t := mk {
  start : Qc; stop : Qc; npoints : N; seed : option Z;
  sequence : list Qc
}.

(** [[
    def __init__(self, start, stop, npoints, seed=None):
        ...
        self.sequence = list(LinearScan(start, stop, npoints))
        if seed is None:
            rf = random.random
        else:
            rf = Random(seed).random
        random.shuffle(self.sequence, rf)
    ]]
    [g] is the state of the generator behind [random.random].
    [list(x)] asks [x] for its length before it iterates, and a negative
    [__len__()] is a [ValueError]: for [npoints < 0] the constructor
    raises before it looks at the seed. *)
Definition __init__ `{PyRandom} (start stop : Qc) (npoints : Z)
    (seed : option Z) (g : Rng) : result t * Rng :=
  if decide (LinearScan.__len__ (LinearScan.mk start stop npoints) < 0)%Z
  then (Raise ValueError, g)
  else
  let sequence :=
    LinearScan.__iter__ (LinearScan.mk start stop npoints) in
  match seed with
  | None =>
      let '(sequence, g) := shuffle sequence g in
      (Ok (mk start stop (Z.to_N npoints) seed sequence), g)
  | Some sd =>
      match Random with
      | None => (Raise NameError, g)
      | Some new_generator =>
          let '(sequence, _) := shuffle sequence (new_generator sd) in
          (Ok (mk start stop (Z.to_N npoints) seed sequence), g)
      end
  end.

Definition __iter__ (self : t) : list Qc := sequence self.
Definition __len__ (self : t) : Z := Z.of_N (npoints self).
Definition describe (self : t) : gmap string pyval :=
  {[ "ty" := PStr "RandomScan";
     "start" := PNum (start self); "stop" := PNum (stop self);
     "npoints" := PInt (Z.of_N (npoints self));
     "seed" := match seed self with
               | None => PNone
               | Some sd => PInt sd
               end ]}.
End RandomScan.

(** *** [class ExplicitScan(ScanObject)] *)
Module ExplicitScan.
Record t := mk { sequence : list Qc }.

Definition __iter__ (self : t) : list Qc := sequence self.
Definition __len__ (self : t) : Z := Z.of_nat (length (sequence self)).
Definition describe (self : t) : gmap string pyval :=
  {[ "ty" := PStr "ExplicitScan"; "sequence" := PList (sequence self) ]}.
End ExplicitScan.

(** Any scan object. *)
Inductive ScanObject :=
| ONoScan (s : NoScan.t)
| OLinearScan (s : LinearScan.t)
| ORandomScan (s : RandomScan.t)
| OExplicitScan (s : ExplicitScan.t).

Definition iter (s : ScanObject) : list Qc :=
  match s with
  | ONoScan s => NoScan.__iter__ s
  | OLinearScan s => LinearScan.__iter__ s
  | ORandomScan s => RandomScan.__iter__ s
  | OExplicitScan s => ExplicitScan.__iter__ s
  end.

(** [len(s)], that is [s.__len__()]. *)
Definition len (s : ScanObject) : Z :=
  match s with
  | ONoScan s => NoScan.__len__ s
  | OLinearScan s => LinearScan.__len__ s
  | ORandomScan s => RandomScan.__len__ s
  | OExplicitScan s => ExplicitScan.__len__ s
  end.

Definition describe (s : ScanObject) : gmap string pyval :=
  match s with
  | ONoScan s => NoScan.describe s
  | OLinearScan s => LinearScan.describe s
  | ORandomScan s => RandomScan.describe s
  | OExplicitScan s => ExplicitScan.describe s
  end.

(** The four classes, and [_ty_to_scan]. *)
Inductive scan_cls := CNoScan | CLinearScan | CRandomScan | CExplicitScan.

Definition type_of (s : ScanObject) : scan_cls :=
  match s with
  | ONoScan _ => CNoScan
  | OLinearScan _ => CLinearScan
  | ORandomScan _ => CRandomScan
  | OExplicitScan _ => CExplicitScan
  end.

Definition _ty_to_scan : gmap string scan_cls :=
  {[ "NoScan" := CNoScan; "LinearScan" := CLinearScan;
     "RandomScan" := CRandomScan; "ExplicitScan" := CExplicitScan ]}.

(** [inspect.getargspec(cls).args]: the parameters of [cls.__init__],
    [self] included. *)
Definition getargspec_args (cls : scan_cls) : list string :=
  match cls with
  | CNoScan => ["self"; "value"; "repetitions"]
  | CLinearScan => ["self"; "start"; "stop"; "npoints"]
  | CRandomScan => ["self"; "start"; "stop"; "npoints"; "seed"]
  | CExplicitScan => ["self"; "sequence"]
  end.

(** The attributes of a scan object are typed here: scanned values are
    numbers, counts are integers, a seed is [None] or an integer, an
    explicit sequence is a list of numbers.  An argument of another
    type is reported as [TypeError] when the object is built. *)
Definition as_num (v : pyval) : result Qc :=
  match v with
  | PNum q => Ok q
  | PInt z => Ok (Qc_of_Z z)
  | _ => Raise TypeError
  end.
Definition as_int (v : pyval) : result Z :=
  match v with PInt z => Ok z | _ => Raise TypeError end.
Definition as_seed (v : pyval) : result (option Z) :=
  match v with
  | PNone => Ok None
  | PInt z => Ok (Some z)
  | _ => Raise TypeError
  end.
Definition as_list (v : pyval) : result (list Qc) :=
  match v with PList l => Ok l | _ => Raise TypeError end.

(** A required parameter that is absent is a [TypeError]; an optional
    one takes its default. *)
Definition required {A} (conv : pyval → result A) (args : gmap string pyval)
    (name : string) : result A :=
  match args !! name with
  | Some v => conv v
  | None => Raise TypeError
  end.
Definition optional {A} (conv : pyval → result A) (dflt : A)
    (args : gmap string pyval) (name : string) : result A :=
  match args !! name with
  | Some v => conv v
  | None => Ok dflt
  end.

Definition rbind {A B} (r : result A) (k : A → result B) : result B :=
  match r with Ok a => k a | Raise e => Raise e end.

Notation "'try' x <- r ; k" := (rbind r (λ x, k))
  (at level 10, x name, r at level 100, k at level 200).

(** [cls( **args)]: the keys of [args] are parameter names of [cls]. *)
Definition construct `{PyRandom} (cls : scan_cls) (args : gmap string pyval)
    (g : Rng) : result ScanObject * Rng :=
  match cls with
  | CNoScan =>
      (try value <- required as_num args "value";
       try repetitions <- optional as_int 1%Z args "repetitions";
       Ok (ONoScan (NoScan.mk value repetitions)), g)
  | CLinearScan =>
      (try start <- required as_num args "start";
       try stop <- required as_num args "stop";
       try npoints <- required as_int args "npoints";
       Ok (OLinearScan (LinearScan.mk start stop npoints)), g)
  | CRandomScan =>
      match
        (try start <- required as_num args "start";
         try stop <- required as_num args "stop";
         try npoints <- required as_int args "npoints";
         try seed <- optional as_seed None args "seed";
         Ok (start, stop, npoints, seed))
      with
      | Ok (start, stop, npoints, seed) =>
          let '(r, g) := RandomScan.__init__ start stop npoints seed g in
          (rbind r (λ s, Ok (ORandomScan s)), g)
      | Raise e => (Raise e, g)
      end
  | CExplicitScan =>
      (try sequence <- required as_list args "sequence";
       Ok (OExplicitScan (ExplicitScan.mk sequence)), g)
  end.

(** The arguments a scan object was constructed with, and the direct
    constructor call with such arguments. *)
Inductive ctor_args :=
| ANoScan (value : Qc) (repetitions : Z)
| ALinearScan (start stop : Qc) (npoints : Z)
| ARandomScan (start stop : Qc) (npoints : Z) (seed : option Z)
| AExplicitScan (sequence : list Qc).

Definition params (s : ScanObject) : ctor_args :=
  match s with
  | ONoScan s => ANoScan (NoScan.value s) (NoScan.repetitions s)
  | OLinearScan s =>
      ALinearScan (LinearScan.start s) (LinearScan.stop s)
                  (LinearScan.npoints s)
  | ORandomScan s =>
      ARandomScan (RandomScan.start s) (RandomScan.stop s)
                  (Z.of_N (RandomScan.npoints s)) (RandomScan.seed s)
  | OExplicitScan s => AExplicitScan (ExplicitScan.sequence s)
  end.

Definition new `{PyRandom} (a : ctor_args) (g : Rng)
  : result ScanObject * Rng :=
  match a with
  | ANoScan value repetitions =>
      (Ok (ONoScan (NoScan.mk value repetitions)), g)
  | ALinearScan start stop npoints =>
      (Ok (OLinearScan (LinearScan.mk start stop npoints)), g)
  | ARandomScan start stop npoints seed =>
      let '(r, g) := RandomScan.__init__ start stop npoints seed g in
      (rbind r (λ s, Ok (ORandomScan s)), g)
  | AExplicitScan sequence =>
      (Ok (OExplicitScan (ExplicitScan.mk sequence)), g)
  end.

(** *** [class Scannable] *)
Module Scannable.

(** [[
    def process(self, x):
        cls = _ty_to_scan[x["ty"]]
        args = dict()
        for arg in inspect.getargspec(cls).args[1:]:
            if arg in x:
                args[arg] = x[arg]
        return cls( **args)
    ]] *)
Definition process `{PyRandom} (x : gmap string pyval) (g : Rng)
  : result ScanObject * Rng :=
  match x !! "ty" with
  | None => (Raise KeyError, g)
  | Some (PList _) => (Raise TypeError, g)
  | Some (PStr ty) =>
      match _ty_to_scan !! ty with
      | None => (Raise KeyError, g)
      | Some cls =>
          let args :=
            foldl (λ args arg,
                     match x !! arg with
                     | Some v => <[arg := v]> args
                     | None => args
                     end)
                  (∅ : gmap string pyval)
                  (drop 1 (getargspec_args cls)) in
          construct cls args g
      end
  | Some _ => (Raise KeyError, g)
  end.

(** An attribute of the module [artiq.language.units]: a number, as
    the units the module defines are, or another object (the string
    [__name__], a function, ...).  Of another object the constructor
    needs only this: dividing it by a float raises [TypeError]. *)
Inductive module_attr := NumberAttr (q : Qc) | ObjectAttr.

(** The attributes [__init__] sets.  [default_values] exists only when a
    default was given. *)
Record t := mk {
  default_values : option (list ScanObject);
  unit : string;
  scale : module_attr;
  global_step : Qc;
  global_min : option Qc;
  global_max : option Qc;
  ndecimals : Z
}.

(** The [default] argument: the sentinel [NoDefault], one scan object,
    or a list of scan objects. *)
Inductive default_arg :=
| NoDefault
| OneDefault (s : ScanObject)
| ListDefault (l : list ScanObject).

(** [[
    def __init__(self, default=NoDefault, unit="", scale=None,
                 global_step=None, global_min=None, global_max=None,
                 ndecimals=2):
        if scale is None:
            if unit == "":
                scale = 1.0
            else:
                try:
                    scale = getattr(units, unit)
                except AttributeError:
                    raise KeyError(...)
        if global_step is None:
            global_step = scale/10.0
        if default is not NoDefault:
            if not isinstance(default, list):
                default = [default]
            self.default_values = default
        ...
    ]]
    [units] holds the attributes of the module object
    [artiq.language.units], by name: [getattr] finds whatever the module
    has under the name, a unit or not.  An omitted keyword argument is
    [None], except [default]; a [scale] or [global_step] that is given
    is a number. *)
Definition __init__ (units : gmap string module_attr) (dflt : default_arg)
    (unit_arg : option string) (scale_arg global_step_arg : option Qc)
    (global_min_arg global_max_arg : option Qc) (ndecimals_arg : option Z)
  : result t :=
  let unit_arg := default "" unit_arg in
  try scale_arg <-
    match scale_arg with
    | Some sc => Ok (NumberAttr sc)
    | None =>
        if decide (unit_arg = "") then Ok (NumberAttr (Qc_of_Z 1))
        else match units !! unit_arg with
             | Some sc => Ok sc
             | None => Raise KeyError
             end
    end;
  try global_step_arg <-
    match global_step_arg with
    | Some st => Ok st
    | None =>
        match scale_arg with
        | NumberAttr sc => Ok (sc / Qc_of_Z 10)%Qc
        | ObjectAttr => Raise TypeError
        end
    end;
  Ok (mk match dflt with
         | NoDefault => None
         | OneDefault d => Some [d]
         | ListDefault l => Some l
         end
         unit_arg scale_arg global_step_arg global_min_arg global_max_arg
         (default 2%Z ndecimals_arg)).

(** What [default()] can raise. *)
Inductive default_error := DefaultMissing | IndexError.

(** [[
    def default(self):
        if not hasattr(self, "default_values"):
            raise DefaultMissing
        return self.default_values[0]
    ]] *)
Definition default (self : t) : default_error + ScanObject :=
  match default_values self with
  | None => inl DefaultMissing
  | Some [] => inl IndexError
  | Some (d :: _) => inr d
  end.

(** A value of the dictionary [describe] returns: a plain value, the
    list of the descriptions of the default scans, or an object that is
    not a number (a scale found in [units] that is no unit). *)
Inductive descr_val :=
| DVal (v : pyval)
| DScans (l : list (gmap string pyval))
| DObject.

Definition opt_num (o : option Qc) : pyval :=
  match o with Some q => PNum q | None => PNone end.

(** [[
    def describe(self):
        d = {"ty": "Scannable"}
        if hasattr(self, "default_values"):
            d["default"] = [d.describe() for d in self.default_values]
        d["unit"] = self.unit
        d["scale"] = self.scale
        d["global_step"] = self.global_step
        d["global_min"] = self.global_min
        d["global_max"] = self.global_max
        d["ndecimals"] = self.ndecimals
        return d
    ]] *)
Definition describe (self : t) : gmap string descr_val :=
  let d : gmap string descr_val := {[ "ty" := DVal (PStr "Scannable") ]} in
  let d := match default_values self with
           | Some l => <["default" := DScans (describe <$> l)]> d
           | None => d
           end in
  let d := <["unit" := DVal (PStr (unit self))]> d in
  let d := <["scale" := match scale self with
                         | NumberAttr sc => DVal (PNum sc)
                         | ObjectAttr => DObject
                         end]> d in
  let d := <["global_step" := DVal (PNum (global_step self))]> d in
  let d := <["global_min" := DVal (opt_num (global_min self))]> d in
  let d := <["global_max" := DVal (opt_num (global_max self))]> d in
  <["ndecimals" := DVal (PInt (ndecimals self))]> d.

End Scannable.

(** *** [class MultiScanManager] *)

(** [itertools.product( *pools)]: tuples in lexicographic order of the
    positions in the pools, so the last pool varies fastest; the product
    of no pools is one empty tuple. *)
Fixpoint product {A} (pools : list (list A)) : list (list A) :=
  match pools with
  | [] => [[]]
  | p :: r => p ≫= λ x, cons x <$> product r
  end.

(** The value of an attribute of a [ScanPoint]: a scanned value, or the
    set of names kept in [self.attr]. *)
Inductive attrval :=
| AVal (v : Qc)
| ASet (s : gset string).

#[global] Instance attrval_eq_dec : EqDecision attrval.
Proof. solve_decision. Defined.

Module ScanPoint.

(** An instance is its attribute dictionary. *)
Abbreviation t := (gmap string attrval).

(** [setattr(self, k, v)] for a number [v].  An instance of a plain
    class takes an attribute of any name, except that [__class__] and
    [__dict__] only accept a class and a dictionary ([TypeError]) and
    [__weakref__] is not writable ([AttributeError]). *)
Definition setattr (self : t) (k : string) (v : Qc) : result t :=
  if decide (k = "__class__" ∨ k = "__dict__") then Raise TypeError
  else if decide (k = "__weakref__") then Raise AttributeError
  else Ok (<[k := AVal v]> self).

(** One turn of the loop in [__init__]:
    [setattr(self, k, v); self.attr.add(k)].  After [setattr] with
    [k = "attr"] the attribute [attr] holds [v], a number, which has
    no [add]. *)
Definition bind_attr (k : string) (v : Qc) (st : result t) : result t :=
  try self <- st;
  try self <- setattr self k v;
  match self !! "attr" with
  | Some (ASet names) => Ok (<["attr" := ASet ({[k]} ∪ names)]> self)
  | _ => Raise AttributeError
  end.

(** [[
    def __init__(self, **kwargs):
        self.attr = set()
        for k, v in kwargs.items():
            setattr(self, k, v)
            self.attr.add(k)
    ]]
    A keyword named [self] collides with the first parameter and the
    call raises [TypeError].  The keywords are a map here: when several
    of them cannot be set, which one raises first follows the order of
    the keys, not the order of registration; whether the call raises
    does not depend on the order. *)
Definition __init__ (kwargs : gmap string Qc) : result t :=
  if decide ("self" ∈ dom kwargs) then Raise TypeError
  else map_fold bind_attr (Ok {[ "attr" := ASet ∅ ]}) kwargs.

End ScanPoint.

Module MultiScanManager.

Record t := mk {
  names : list string;
  scan_objects : list ScanObject
}.

(** [[
    def __init__(self, *args):
        self.names = [a[0] for a in args]
        self.scan_objects = [a[1] for a in args]
    ]] *)
Definition __init__ (args : list (string * ScanObject)) : t :=
  mk (fst <$> args) (snd <$> args).

(** [{k: v for k, v in zip(names, values)}]: a later pair with the
    same key replaces the value. *)
Definition dict_of (names : list string) (values : list Qc)
  : gmap string Qc :=
  foldl (λ d kv, <[kv.1 := kv.2]> d) ∅ (zip names values).

(** The generator, run to its end: the points it yields and the
    exception that ends it, if one does. *)
Fixpoint yield_points (names : list string) (tuples : list (list Qc))
  : list ScanPoint.t * option exn :=
  match tuples with
  | [] => ([], None)
  | values :: rest =>
      match ScanPoint.__init__ (dict_of names values) with
      | Ok p =>
          let '(ps, e) := yield_points names rest in (p :: ps, e)
      | Raise e => ([], Some e)
      end
  end.

(** [[
    def _gen(self):
        for values in product( *self.scan_objects):
            d = {k: v for k, v in zip(self.names, values)}
            yield self.scan_point_cls( **d)
    ]]
    [product] turns each argument into a tuple first, and [tuple(x)]
    asks [x] for its length before it iterates: a scan whose [__len__()]
    is negative makes the call raise [ValueError], before any point is
    built. *)
Definition _gen (self : t) : list ScanPoint.t * option exn :=
  if existsb (λ s, len s <? 0)%Z (scan_objects self)
  then ([], Some ValueError)
  else yield_points (names self) (product (iter <$> scan_objects self)).

Definition __iter__ (self : t) : list ScanPoint.t * option exn :=
  _gen self.


(** Names that cannot be attributes of a scan point: [attr] is the
    point's own bookkeeping set, [self] is the first parameter of its
    constructor, and the last three are not assignable on an instance. *)
Definition reserved : list string :=
  ["attr"; "self"; "__class__"; "__dict__"; "__weakref__"].

(** The position taken in each pool by the [idx]-th tuple of the product
    of pools of lengths [lens]: the mixed-radix digits of [idx], the last
    pool being the least significant. *)
Fixpoint positions (lens : list nat) (idx : nat) : list nat :=
  match lens with
  | [] => []
  | _ :: ls =>
      let n := foldr Nat.mul 1 ls in
      idx `div` n :: positions ls (idx `mod` n)
  end.

(** The index of the tuple that takes the positions [pos]: the inverse of
    [positions]. *)
Fixpoint index_of (lens pos : list nat) : nat :=
  match lens, pos with
  | _ :: ls, d :: ds => d * foldr Nat.mul 1 ls + index_of ls ds
  | _, _ => 0
  end.

(** Specification of iterating a manager built from [args]: one
    point per tuple of the Cartesian product, in the order of
    [positions]; in each point, every registered name is an attribute
    bound to the value its scan takes in the tuple, and there is no
    other attribute besides the bookkeeping set [attr], which holds the
    registered names. *)
Definition product_points_spec (args : list (string * ScanObject))
  : Prop :=
  let lens := (λ a, length (iter a.2)) <$> args in
  ∃ points,
    __iter__ (__init__ args) = (points, None) ∧
    length points = foldr Nat.mul 1 lens ∧
    ∀ idx p, points !! idx = Some p →
      (∀ j name scan, args !! j = Some (name, scan) →
         ∃ pos v, positions lens idx !! j = Some pos ∧
                  iter scan !! pos = Some v ∧
                  p !! name = Some (AVal v)) ∧
      (∀ k, k ≠ "attr" → is_Some (p !! k) ↔ k ∈ fst <$> args) ∧
      p !! "attr" = Some (ASet (list_to_set (fst <$> args))).

End MultiScanManager.

End Scan.

(* ===================================================================== *)
(** * Part II: properties                                                 *)
(* ===================================================================== *)

(** ** Bit vectors: [Cat] and assignment to [Cat] are inverse *)

Section CatSplit.
Import Migen.
Local Open Scope Z_scope.

Lemma trunc_range w v : 0 ≤ trunc w v < 2 ^ Z.of_nat w.
Proof. unfold trunc. apply Z.mod_pos_bound. lia. Qed.

Lemma trunc_land w v : trunc w v = Z.land v (Z.ones (Z.of_nat w)).
Proof. unfold trunc. rewrite Z.land_ones by lia. done. Qed.

Lemma cat_value_nonneg l : 0 ≤ cat_value l.
Proof.
  induction l as [|[w v] r IH]; simpl; [lia|].
  apply Z.lor_nonneg. split; [apply trunc_range|].
  apply Z.shiftl_nonneg. done.
Qed.

(** The low [w] bits of [a | (c << w)] are the low [w] bits of [a]. *)
Lemma trunc_lor_shiftl w a c :
  trunc w (Z.lor (trunc w a) (Z.shiftl c (Z.of_nat w))) = trunc w a.
Proof.
  rewrite !trunc_land.
  apply Z.bits_inj'. intros i Hi.
  rewrite !Z.land_spec, Z.lor_spec, Z.land_spec.
  destruct (Z.lt_ge_cases i (Z.of_nat w)) as [Hlt|Hge].
  - rewrite Z.shiftl_spec_low by done.
    rewrite Z.ones_spec_low by lia.
    by rewrite orb_false_r, !andb_true_r.
  - rewrite Z.ones_spec_high by lia.
    by rewrite !andb_false_r.
Qed.

(** Shifting [a | (c << w)] right by [w] leaves [c] when [a] fits in
    [w] bits. *)
Lemma shiftr_lor_shiftl w a c :
  Z.shiftr (Z.lor (trunc w a) (Z.shiftl c (Z.of_nat w))) (Z.of_nat w) = c.
Proof.
  rewrite Z.shiftr_lor.
  rewrite Z.shiftr_shiftl_l by lia.
  rewrite Z.sub_diag, Z.shiftl_0_r.
  rewrite Z.shiftr_div_pow2 by lia.
  rewrite Z.div_small by apply trunc_range.
  done.
Qed.

Lemma split_cat (l : list (nat * Z)) :
  split_value (fst <$> l) (cat_value l) = (λ p, trunc p.1 p.2) <$> l.
Proof.
  induction l as [|[w v] r IH]; [done|].
  cbn [fmap list_fmap split_value cat_value fst snd].
  rewrite trunc_lor_shiftl, shiftr_lor_shiftl.
  f_equal. exact IH.
Qed.

(** A [Cat] fits in the sum of the widths of its operands, so a signal of
    that width carries it unchanged. *)
Lemma cat_value_bound (l : list (nat * Z)) :
  cat_value l < 2 ^ Z.of_nat (sum_list (fst <$> l)).
Proof.
  induction l as [|[w v] r IH]; [simpl; lia|].
  cbn [fmap list_fmap cat_value fst sum_list sum_list_with].
  pose proof (trunc_range w v) as [Hv0 Hv1].
  pose proof (cat_value_nonneg r) as Hr0.
  assert (Hlor : Z.lor (trunc w v) (Z.shiftl (cat_value r) (Z.of_nat w))
                 = trunc w v + cat_value r * 2 ^ Z.of_nat w).
  { rewrite <- Z.shiftl_mul_pow2 by lia.
    symmetry. rewrite Z.add_nocarry_lxor.
    - apply Z.bits_inj'. intros i Hi.
      rewrite Z.lxor_spec, Z.lor_spec.
      destruct (Z.lt_ge_cases i (Z.of_nat w)) as [Hlt|Hge].
      + rewrite Z.shiftl_spec_low by done.
        by rewrite xorb_false_r, orb_false_r.
      + rewrite (trunc_land w v), Z.land_spec, Z.ones_spec_high by lia.
        by rewrite andb_false_r.
    - apply Z.bits_inj'. intros i Hi.
      rewrite Z.land_spec, Z.bits_0.
      destruct (Z.lt_ge_cases i (Z.of_nat w)) as [Hlt|Hge].
      + rewrite Z.shiftl_spec_low by done. by rewrite andb_false_r.
      + rewrite (trunc_land w v), Z.land_spec, Z.ones_spec_high by lia.
        by rewrite andb_false_r. }
  rewrite Hlor, Nat2Z.inj_add, Z.pow_add_r by lia.
  set (A := 2 ^ Z.of_nat w) in *.
  set (B := 2 ^ Z.of_nat (sum_list (fst <$> r))) in *.
  assert (cat_value r * A ≤ (B - 1) * A) by (apply Z.mul_le_mono_nonneg_r; lia).
  change (2 ^ Z.of_nat (id w)) with A.
  clearbody A B. nia.
Qed.

Lemma trunc_cat_value (l : list (nat * Z)) :
  trunc (sum_list (fst <$> l)) (cat_value l) = cat_value l.
Proof.
  unfold trunc. apply Z.mod_small.
  split; [apply cat_value_nonneg | apply cat_value_bound].
Qed.

End CatSplit.

(** ** [GenericRXSynchronizer] *)

Section Synchronizer.
Import Migen Drtio.
Import GenericRXSynchronizer.

Lemma fresh_like_length n l : length (fresh_like n l) = length l.
Proof.
  revert n. induction l as [|s l IH]; intros n; [done|].
  cbn. by rewrite IH.
Qed.

Lemma fresh_like_cons n s l :
  fresh_like n (s :: l) =
  mkSignal n (nbits s) (signed s) (Some (uid s)) :: fresh_like (S n) l.
Proof. reflexivity. Qed.

Lemma fresh_like_nbits n l : nbits <$> fresh_like n l = nbits <$> l.
Proof.
  revert n. induction l as [|s l IH]; intros n; [done|].
  rewrite fresh_like_cons. cbn. by rewrite IH.
Qed.

Lemma fresh_like_signed n l : signed <$> fresh_like n l = signed <$> l.
Proof.
  revert n. induction l as [|s l IH]; intros n; [done|].
  rewrite fresh_like_cons. cbn. by rewrite IH.
Qed.

Lemma resync_eq self s n :
  resync self s n =
  (let o := mkSignal n (nbits s) (signed s) (Some (uid s)) in
   (o, mk (signals self ++ [(s, o)]) (submodules self) (comb self)), S n).
Proof. reflexivity. Qed.

Lemma resync_all_eq l : ∀ self n,
  resync_all self l n =
  ((fresh_like n l,
    mk (signals self ++ zip l (fresh_like n l))
       (submodules self) (comb self)),
   n + length l).
Proof.
  induction l as [|s l IH]; intros self n.
  - cbn. rewrite app_nil_r, Nat.add_0_r. by destruct self.
  - cbn [resync_all]. unfold bind at 1. rewrite resync_eq. cbn zeta.
    unfold bind at 1. rewrite IH. cbn [signals submodules comb].
    unfold ret. rewrite fresh_like_cons. cbn [zip zip_with length].
    rewrite <- app_assoc. cbn [app]. f_equal. lia.
Qed.

Lemma sum_len_fst (l outs : list Signal) :
  length l = length outs →
  sum_list ((λ s : Signal * Signal, len (VSignal s.1)) <$> zip l outs)
  = sum_list (nbits <$> l).
Proof.
  revert outs. induction l as [|s l IH]; intros [|o outs] Hlen;
    simplify_eq/=; [done|]. by rewrite IH.
Qed.

Lemma elaborate_eq l n :
  elaborate l n =
  ((fresh_like n l,
    mk (zip l (fresh_like n l)) [buffer_of n l]
       [ Assign (VSignal (din (buffer_of n l))) (VCat l);
         Assign (VCat (fresh_like n l)) (VSignal (dout (buffer_of n l))) ]),
   S (S (n + length l))).
Proof.
  unfold elaborate. unfold bind at 1. rewrite resync_all_eq.
  cbn [signals submodules comb __init__ app].
  unfold bind, do_finalize, ElasticBuffer_new, bind, Signal_new, ret.
  cbn [signals submodules comb app].
  rewrite sum_len_fst by (by rewrite fresh_like_length).
  rewrite fst_zip by (rewrite fresh_like_length; lia).
  rewrite snd_zip by (rewrite fresh_like_length; lia).
  reflexivity.
Qed.

End Synchronizer.

(** ** The bridge neither loses, duplicates nor reorders words *)

Section BridgeQueue.
Import Bridge.

Lemma run_conserves depth ops : ∀ q out qf,
  run depth q ops = Some (out, qf) → q ++ writes ops = out ++ qf.
Proof.
  induction ops as [|[w|] ops IH]; intros q out qf Hrun; cbn in Hrun.
  - simplify_eq. cbn. by rewrite app_nil_r.
  - case_decide; [|done]. apply IH in Hrun.
    rewrite <- Hrun, <- app_assoc. done.
  - destruct q as [|x q].
    + by apply IH in Hrun.
    + destruct (run depth q ops) as [[out' qf']|] eqn:Hr; [|done].
      simplify_eq. apply IH in Hr. cbn. by rewrite <- Hr.
Qed.

Lemma run_app depth ops1 ops2 : ∀ q o1 q1 o2 q2,
  run depth q ops1 = Some (o1, q1) →
  run depth q1 ops2 = Some (o2, q2) →
  run depth q (ops1 ++ ops2) = Some (o1 ++ o2, q2).
Proof.
  induction ops1 as [|[w|] ops1 IH]; intros q o1 q1 o2 q2 H1 H2;
    cbn in H1 |- *.
  - by simplify_eq.
  - case_decide; [|done]. by eapply IH.
  - destruct q as [|x q].
    + by eapply IH.
    + destruct (run depth q ops1) as [[out' qf']|] eqn:Hr; [|done].
      simplify_eq. by erewrite IH.
Qed.

Lemma run_drain depth q :
  run depth q (replicate (length q) Read) = Some (q, []).
Proof.
  induction q as [|x q IH]; [done|]. cbn. by rewrite IH.
Qed.

End BridgeQueue.

Section SynchronizerProperties.
Import Migen Drtio.
Import GenericRXSynchronizer.

(** One word through the buffer: what the read side sees on the
    synchronized signals is what the write side had on the originals. *)
Lemma word_carried l outs (i o : Signal) (ew er : env) :
  nbits <$> outs = nbits <$> l →
  sum_list (nbits <$> l) = nbits i →
  stmt_holds ew (Assign (VSignal i) (VCat l)) →
  stmt_holds er (Assign (VCat outs) (VSignal o)) →
  read er o = read ew i →
  ∀ k s s', l !! k = Some s → outs !! k = Some s' →
            read er s' = read ew s.
Proof.
  intros Hw Hsum (x & Hx & Hi) (y & Hy & Ho) Hword k s s' Hs Hs'.
  cbn in Hx, Hy, Hi, Ho. simplify_eq.
  apply Forall_inv in Hi. cbn beta iota in Hi.
  set (L := (λ s0, (nbits s0, ew (uid s0))) <$> l) in *.
  assert (HL : fst <$> L = nbits <$> l).
  { unfold L. rewrite <- list_fmap_compose. done. }
  rewrite Hword, Hi, <- Hsum, <- HL, trunc_cat_value in Ho.
  rewrite Hw, <- HL, split_cat in Ho.
  rewrite Forall_lookup in Ho.
  specialize (Ho k (s', read ew s)). cbn in Ho. apply Ho.
  apply lookup_zip_with_Some. exists s', (read ew s).
  split_and!; [done..|].
  unfold L. rewrite !list_lookup_fmap, Hs. done.
Qed.

(** C2: finalization creates exactly one elastic buffer, as wide as all
    registered signals together, four entries deep, written in the
    [rtio_rx] domain and read in the [rtio] domain. *)
Theorem C2_finalize_single_elastic_buffer (l : list Signal) (n : nat) :
  let g := (elaborate l n).1.2 in
  (∀ self k,
      ∃ eb, submodules (do_finalize self k).1 = submodules self ++ [eb]) ∧
  ∃ eb, submodules g = [eb] ∧
        eb_width eb = sum_list (nbits <$> l) ∧
        eb_width eb = sum_list ((λ s, nbits s.1) <$> signals g) ∧
        nbits (din eb) = eb_width eb ∧
        nbits (dout eb) = eb_width eb ∧
        eb_depth eb = 4 ∧
        eb_idomain eb = "rtio_rx" ∧
        eb_odomain eb = "rtio".
Proof.
  cbn zeta. split.
  - intros self k. eexists. reflexivity.
  - rewrite elaborate_eq. cbn [fst snd signals submodules].
    exists (buffer_of n l). split_and!; try reflexivity.
    cbn [buffer_of eb_width].
    rewrite <- (sum_len_fst l (fresh_like n l))
      by (by rewrite fresh_like_length).
    done.
Qed.

(** C3: every [resync] call returns a signal as wide as its argument; the
    buffer input is the [Cat] of the originals in registration order and
    the [Cat] of the synchronized signals, in the same order and at the
    same bit offsets, is driven from the buffer output; a word read
    from the buffer gives every synchronized signal the value its
    original had when the word was written; and over any run of the
    buffer the words are read in the order written, each once. *)
Theorem C3_resync_keeps_width_order_and_values (l : list Signal) (n : nat) :
  let outs := (elaborate l n).1.1 in
  let g := (elaborate l n).1.2 in
  (∀ self s k, nbits (resync self s k).1.1 = nbits s) ∧
  length outs = length l ∧
  nbits <$> outs = nbits <$> l ∧
  signals g = zip l outs ∧
  ∃ eb,
    submodules g = [eb] ∧
    comb g = [ Assign (VSignal (din eb)) (VCat l);
               Assign (VCat outs) (VSignal (dout eb)) ] ∧
    len (VCat l) = nbits (din eb) ∧
    len (VCat outs) = nbits (dout eb) ∧
    offsets 0 (nbits <$> outs) = offsets 0 (nbits <$> l) ∧
    (∀ ew er,
        comb_holds g ew → comb_holds g er →
        read er (dout eb) = read ew (din eb) →
        carries g ew er) ∧
    (∀ (ews ers : list env) ops q,
        Forall (comb_holds g) ews → Forall (comb_holds g) ers →
        Bridge.writes ops = (λ e, read e (din eb)) <$> ews →
        Bridge.run (eb_depth eb) [] ops
          = Some ((λ e, read e (dout eb)) <$> ers, q) →
        length ews = length ers + length q ∧
        (∀ j er, ers !! j = Some er →
                 ∃ ew, ews !! j = Some ew ∧ carries g ew er) ∧
        Bridge.run (eb_depth eb) []
                   (ops ++ replicate (length q) Bridge.Read)
          = Some ((λ e, read e (din eb)) <$> ews, [])).
Proof.
  cbn zeta. rewrite elaborate_eq. cbn [fst snd signals submodules comb].
  assert (Hone : ∀ ew er,
    comb_holds (mk (zip l (fresh_like n l)) [buffer_of n l]
      [ Assign (VSignal (din (buffer_of n l))) (VCat l);
        Assign (VCat (fresh_like n l))
               (VSignal (dout (buffer_of n l))) ]) ew →
    comb_holds (mk (zip l (fresh_like n l)) [buffer_of n l]
      [ Assign (VSignal (din (buffer_of n l))) (VCat l);
        Assign (VCat (fresh_like n l))
               (VSignal (dout (buffer_of n l))) ]) er →
    read er (dout (buffer_of n l)) = read ew (din (buffer_of n l)) →
    carries (mk (zip l (fresh_like n l)) [buffer_of n l]
      [ Assign (VSignal (din (buffer_of n l))) (VCat l);
        Assign (VCat (fresh_like n l))
               (VSignal (dout (buffer_of n l))) ]) ew er).
  { intros ew er Hw Hr Hword k s o Hk. cbn [signals] in Hk.
    apply lookup_zip_with_Some in Hk as (s1 & o1 & Heq & Hs & Ho).
    simplify_eq.
    unfold comb_holds in Hw, Hr. cbn [comb] in Hw, Hr.
    apply Forall_cons in Hw as [Hw _].
    apply Forall_cons in Hr as [_ Hr]. apply Forall_inv in Hr.
    by eapply (word_carried l (fresh_like n l) (din (buffer_of n l))
                 (dout (buffer_of n l)) ew er);
      [apply fresh_like_nbits | reflexivity | ..]. }
  split_and!.
  - intros self s k. reflexivity.
  - apply fresh_like_length.
  - apply fresh_like_nbits.
  - reflexivity.
  - exists (buffer_of n l). split_and!; try reflexivity.
    + cbn. by rewrite fresh_like_nbits.
    + by rewrite fresh_like_nbits.
    + exact Hone.
    + intros ews ers ops q Hews Hers Hwr Hrun.
      pose proof (run_conserves _ _ _ _ _ Hrun) as Hcons.
      cbn [app] in Hcons. rewrite Hwr in Hcons.
      split_and!.
      * apply (f_equal length) in Hcons.
        rewrite length_app, !length_fmap in Hcons. done.
      * intros j er Hj.
        assert (Hlook : ((λ e, read e (din (buffer_of n l))) <$> ews) !! j
                        = Some (read er (dout (buffer_of n l)))).
        { rewrite Hcons. apply lookup_app_l_Some.
          by rewrite list_lookup_fmap, Hj. }
        rewrite list_lookup_fmap in Hlook.
        destruct (ews !! j) as [ew|] eqn:Hew; [|done].
        injection Hlook as Hlook. exists ew. split; [done|].
        apply Hone.
        -- by eapply Forall_lookup_1 in Hews.
        -- by eapply Forall_lookup_1 in Hers.
        -- by symmetry.
      * erewrite run_app; [|exact Hrun|apply run_drain].
        by rewrite <- Hcons.
Qed.

(** C3 at a concrete design: a two-bit and a signed three-bit signal are
    registered; the write side holds 3 and 5 on them, the word 23 crosses
    the buffer, and the read side finds 3 and 5 on the synchronized
    signals. *)
Lemma C3_bridge_witness :
  let a := mkSignal 0 2 false None in
  let b := mkSignal 1 3 true None in
  let g := (elaborate [a; b] 10).1.2 in
  let ew : env := λ u, match u with
                       | 0 => 3%Z | 1 => 5%Z | 12 => 23%Z | _ => 0%Z
                       end in
  let er : env := λ u, match u with
                       | 10 => 3%Z | 11 => 5%Z | 13 => 23%Z | _ => 0%Z
                       end in
  comb_holds g ew ∧ comb_holds g er ∧ carries g ew er.
Proof.
  cbn zeta.
  pose proof (C3_resync_keeps_width_order_and_values
                [mkSignal 0 2 false None; mkSignal 1 3 true None] 10)
    as HC3.
  cbn zeta in HC3. rewrite elaborate_eq in HC3 |- *.
  cbn [fst snd submodules] in HC3 |- *.
  destruct HC3 as (_ & _ & _ & _ & eb & Hsub & _ & _ & _ & _ & Hone & _).
  injection Hsub as <-.
  assert (Hholds : ∀ e : env,
    (read e (mkSignal 12 5 false None)
       = cat_value [(2, e 0); (3, e 1)]) →
    (read e (mkSignal 10 2 false (Some 0))
       = trunc 2 (read e (mkSignal 13 5 false None))) →
    (read e (mkSignal 11 3 true (Some 1))
       = trunc 3 (Z.shiftr (read e (mkSignal 13 5 false None)) 2)) →
    comb_holds
      (mk (zip [mkSignal 0 2 false None; mkSignal 1 3 true None]
               (fresh_like 10
                  [mkSignal 0 2 false None; mkSignal 1 3 true None]))
          [buffer_of 10 [mkSignal 0 2 false None; mkSignal 1 3 true None]]
          [ Assign (VSignal (din (buffer_of 10
                      [mkSignal 0 2 false None; mkSignal 1 3 true None])))
                   (VCat [mkSignal 0 2 false None; mkSignal 1 3 true None]);
            Assign (VCat (fresh_like 10
                      [mkSignal 0 2 false None; mkSignal 1 3 true None]))
                   (VSignal (dout (buffer_of 10
                      [mkSignal 0 2 false None; mkSignal 1 3 true None]))) ])
      e).
  { intros e H1 H2 H3. unfold comb_holds. cbn [comb].
    repeat apply Forall_cons_2; [| |apply Forall_nil_2].
    - eexists. split; [reflexivity|].
      apply Forall_cons_2; [|apply Forall_nil_2].
      change (read e (mkSignal 12 5 false None)
              = trunc 5 (cat_value [(2, e 0); (3, e 1)])).
      rewrite H1. symmetry.
      apply (trunc_cat_value [(2, e 0); (3, e 1)]).
    - eexists. split; [reflexivity|].
      repeat apply Forall_cons_2; [exact H2|exact H3|apply Forall_nil_2]. }
  split_and!.
  - apply Hholds; reflexivity.
  - apply Hholds; reflexivity.
  - apply Hone; [apply Hholds; reflexivity..|reflexivity].
Defined.

End SynchronizerProperties.

(** ** [DRTIOSatellite] and [DRTIOMaster] *)

Section SatelliteProperties.
Import Migen Drtio.
Import DRTIOSatellite.

Context {S Channel : Type}.
Variable supplied_resync : S → Signal → nat → Signal * S * nat.
Variable link_width : nat.

Abbreviation resync := (resync supplied_resync).
Abbreviation resync_each := (resync_each supplied_resync).
Abbreviation make_link_layer_sync := (make_link_layer_sync supplied_resync).
Abbreviation __init__ := (__init__ supplied_resync link_width).
Abbreviation link_layer_at := (link_layer_at link_width).
Abbreviation fresh_like := GenericRXSynchronizer.fresh_like.
Abbreviation supplied_calls := (supplied_calls supplied_resync).

(** Two signals with different identities are different. *)
Ltac distinct_signals :=
  unfold tx_ports, rx_ports in *; cbn in *;
  repeat match goal with
         | H : _ ∈ _ :: _ |- _ => apply elem_of_cons in H as [H|H]
         | H : _ ∈ [] |- _ => by apply elem_of_nil in H
         end;
  simplify_eq; lia.

Lemma resync_mono (r : RXSynchronizer) (s : Signal) (k : nat) :
  k ≤ (resync r s k).2.
Proof.
  destruct r as [g|s0]; cbn.
  - unfold bind, ret, Signal_like, Signal_new. cbn. lia.
  - unfold bind, call_supplied.
    destruct (supplied_resync s0 s k) as [[o s1] used]. cbn. lia.
Qed.

(** Names the results of the next [resync] call in the goal, and records
    that the call did not give back identities. *)
Ltac step_resync :=
  match goal with
  | |- context [DRTIOSatellite.resync _ ?r ?x ?k] =>
      let o := fresh "o" in
      let r' := fresh "r" in
      let k' := fresh "k" in
      let E := fresh "E" in
      let M := fresh "M" in
      pose proof (resync_mono r x k) as M;
      destruct (resync r x k) as [[o r'] k'] eqn:E;
      cbn [snd] in M; clear E
  end.

(** The namespace [link_layer_sync]: its receive ports are the results
    of the [resync] calls on the receive ports of the link layer, in
    order, its transmit ports are those of the link layer. *)
Lemma make_link_layer_sync_spec (r : RXSynchronizer) (ll : LinkPorts)
    (k : nat) :
  let res := make_link_layer_sync r ll k in
  resync_each r (rx_ports ll) k = ((rx_ports res.1.1, res.1.2), res.2) ∧
  tx_ports res.1.1 = tx_ports ll ∧
  k ≤ res.2.
Proof.
  cbn zeta.
  unfold DRTIOSatellite.make_link_layer_sync, rx_ports,
    DRTIOSatellite.resync_each, bind, ret.
  do 7 step_resync.
  cbn [fst snd]. split_and!; [reflexivity..|lia].
Qed.

(** The satellite in terms of the namespace [lls], the synchronizer
    [r7] and the next free identity [k] left by the [resync] calls. *)
Lemma init_eq (trx : Transceiver) (channels : list Channel)
    (rx_synchronizer : option S) (fine full : option Z) (n : nat)
    (lls : LinkPorts) (r7 : RXSynchronizer) (k : nat) :
  make_link_layer_sync
    match rx_synchronizer with
    | None => Default GenericRXSynchronizer.__init__
    | Some s => Supplied s
    end
    (ports (link_layer_at trx n)) (13 + n) = ((lls, r7), k) →
  __init__ trx channels rx_synchronizer fine full n =
  (let ll := link_layer_at trx n in
   let engine := mkRTPacketSatellite lls (bit k) (bit (1 + k)) in
   let rt_packet := ClockDomainsRenamer "rtio" engine in
   let ios := mkIOS rt_packet channels (default 3%Z fine)
                    (default 63%Z full) in
   let cd_rio := mkClockDomain "rio" (bit (2 + k)) (bit (3 + k)) in
   let cd_rio_phy := mkClockDomain "rio_phy" (bit (4 + k)) (bit (5 + k)) in
   (mk (match rx_synchronizer, r7 with
        | None, Default g => [ (None, SubRXSynchronizer g) ]
        | _, _ => []
        end ++
        [ (Some "link_layer", SubLinkLayer ll);
          (Some "link_stats",
           SubLinkLayerStats (mkLinkLayerStats lls "rtio"));
          (Some "rt_packet", SubRTPacket rt_packet);
          (Some "ios", SubIOS ios);
          (Some "aux_controller",
           SubAuxController (mkAuxController ll)) ])
       ll (mkLinkLayerStats lls "rtio") rt_packet ios
       [cd_rio; cd_rio_phy] cd_rio cd_rio_phy
       [ Assign (VSignal (bit n)) (VSignal (trx_rx_ready trx));
         Assign (VSignal (bit (2 + k))) (VClockSignal "rtio");
         Assign (VSignal (bit (3 + k))) (VSignal (bit k));
         Assign (VSignal (bit (4 + k))) (VClockSignal "rtio");
         Assign (VSignal (bit (5 + k))) (VSignal (bit (1 + k))) ]
       (mkAuxController ll),
    r7, 6 + k)).
Proof.
  intros Hmk. unfold DRTIOSatellite.__init__.
  unfold bind at 1.
  change (LinkLayer_new link_width (encoder trx) (decoders trx) n)
    with (link_layer_at trx n, 13 + n).
  unfold bind at 1. rewrite Hmk. reflexivity.
Qed.

Lemma make_link_layer_sync_default (ll : LinkPorts) (k : nat) :
  make_link_layer_sync (Default GenericRXSynchronizer.__init__) ll k =
  ((default_sync_ports ll k,
    Default (GenericRXSynchronizer.mk
               (zip (rx_ports ll) (rx_ports (default_sync_ports ll k)))
               [] [])),
   7 + k).
Proof. reflexivity. Qed.

(** With a supplied object, the receive ports of the namespace are what
    the object's own [resync] returns, call after call. *)
Lemma make_link_layer_sync_supplied (s0 : S) (ll : LinkPorts) (k : nat) :
  let res := make_link_layer_sync (Supplied s0) ll k in
  ∃ s7, supplied_calls s0 (rx_ports ll) k = (rx_ports res.1.1, s7, res.2) ∧
        res.1.2 = Supplied s7.
Proof.
  cbn zeta.
  unfold DRTIOSatellite.make_link_layer_sync, DRTIOSatellite.resync,
    call_supplied, bind, ret, rx_ports.
  cbn [DRTIOSatellite.supplied_calls].
  repeat match goal with
         | |- context [supplied_resync ?s ?x ?j] =>
             destruct (supplied_resync s x j) as [[? ?] ?]
         end.
  cbn [fst snd]. by eexists.
Qed.

Lemma supplied_calls_lookup (l : list Signal) : ∀ s k os s' k' i x,
  supplied_calls s l k = (os, s', k') → l !! i = Some x →
  ∃ st j, os !! i = Some (supplied_resync st x j).1.1.
Proof.
  induction l as [|y l IH]; intros s k os s' k' i x Hcalls Hx; [done|].
  cbn [DRTIOSatellite.supplied_calls] in Hcalls.
  destruct (supplied_resync s y k) as [[o s1] used] eqn:Hcall.
  destruct (supplied_calls s1 l (k + used)) as [[os' s2] k2] eqn:Hrest.
  simplify_eq. destruct i as [|i]; cbn in Hx |- *.
  - simplify_eq. exists s, k. by rewrite Hcall.
  - by eapply IH.
Qed.

(** Unfolds the constructor around the namespace, the synchronizer and
    the next free identity produced by the [resync] calls. *)
Ltac open_init trx n rx_synchronizer lls r7 k Hmk :=
  cbn zeta;
  destruct (make_link_layer_sync
              match rx_synchronizer with
              | None => Default GenericRXSynchronizer.__init__
              | Some s => Supplied s
              end
              (ports (link_layer_at trx n)) (13 + n))
    as [[lls r7] k] eqn:Hmk;
  rewrite !(init_eq _ _ _ _ _ _ _ _ _ Hmk);
  cbn [fst snd link_layer rt_packet wrapped rps_link link_stats lls_link
       lls_domain cd_remapping ios ios_rt_packet ios_fine_ts_width
       ios_full_ts_width submodules comb clock_domains cd_rio cd_rio_phy
       reset reset_phy ClockDomainsRenamer].

(** The ports of a link layer are thirteen different signals. *)
Lemma link_layer_ports_distinct (trx : Transceiver) (n : nat) (s : Signal) :
  s ∈ tx_ports (ports (link_layer_at trx n)) →
  s ∉ rx_ports (ports (link_layer_at trx n)).
Proof.
  unfold Drtio.link_layer_at, LinkLayer_new, bind, ret, Signal_new,
    tx_ports, rx_ports.
  cbn. intros Htx Hrx. distinct_signals.
Qed.

(** C1: the receive ports handed to the local-domain logic are the
    results of [resync] calls on the link layer's receive ports, in
    order; the transmit ports are the link layer's own signals and none
    of them is passed to [resync]; the statistics and the packet engine
    built on these ports are in the [rtio] domain, and they are the
    modules the constructor puts there: the auxiliary controller is
    handed the link layer itself and no domain.  With a supplied
    synchronizer the receive ports are what the calls of its own
    [resync] method return, each call made on the link layer's port at
    the same position.  With the default synchronizer the synchronized
    signals are new signals driven, after finalization, from the output
    of the elastic buffer read in [rtio]. *)
Theorem C1_receive_side_resynchronized (trx : Transceiver)
    (channels : list Channel) (rx_synchronizer : option S)
    (fine full : option Z) (n : nat) :
  let r := __init__ trx channels rx_synchronizer fine full n in
  let sat := r.1.1 in
  let sync := r.1.2 in
  let ll := ports (link_layer sat) in
  let link_layer_sync := rps_link (wrapped (rt_packet sat)) in
  let r0 := match rx_synchronizer with
            | None => Default GenericRXSynchronizer.__init__
            | Some s => Supplied s
            end in
  (∃ k, (resync_each r0 (rx_ports ll) k).1
        = (rx_ports link_layer_sync, sync)) ∧
  tx_ports link_layer_sync = tx_ports ll ∧
  (∀ s, s ∈ tx_ports ll → s ∉ rx_ports ll) ∧
  lls_link (link_stats sat) = link_layer_sync ∧
  lls_domain (link_stats sat) = "rtio" ∧
  cd_remapping (rt_packet sat) = {[ "sys" := "rtio" ]} ∧
  ios_rt_packet (ios sat) = rt_packet sat ∧
  aux_link_layer (aux_controller sat) = link_layer sat ∧
  match rx_synchronizer with
  | Some s0 =>
      ∃ k s7 k7,
        supplied_calls s0 (rx_ports ll) k
          = (rx_ports link_layer_sync, s7, k7) ∧
        sync = Supplied s7 ∧
        ∀ i x, rx_ports ll !! i = Some x →
          ∃ st j, rx_ports link_layer_sync !! i
                  = Some (supplied_resync st x j).1.1
  | None =>
      ∃ g, sync = Default g ∧
           GenericRXSynchronizer.signals g
             = zip (rx_ports ll) (rx_ports link_layer_sync) ∧
           (∀ s, s ∈ tx_ports ll →
                 (s ∉ fst <$> GenericRXSynchronizer.signals g) ∧
                 (s ∉ snd <$> GenericRXSynchronizer.signals g)) ∧
           (∀ s, s ∈ rx_ports link_layer_sync →
                 (s ∉ rx_ports ll) ∧ (s ∉ tx_ports ll)) ∧
           (∀ k, let gf := (GenericRXSynchronizer.do_finalize g k).1 in
                 ∃ eb, GenericRXSynchronizer.submodules gf = [eb] ∧
                       eb_idomain eb = "rtio_rx" ∧
                       eb_odomain eb = "rtio" ∧
                       GenericRXSynchronizer.comb gf =
                         [ Assign (VSignal (din eb)) (VCat (rx_ports ll));
                           Assign (VCat (rx_ports link_layer_sync))
                                  (VSignal (dout eb)) ])
  end.
Proof.
  open_init trx n rx_synchronizer lls r7 k Hmk.
  pose proof (make_link_layer_sync_spec
                match rx_synchronizer with
                | None => Default GenericRXSynchronizer.__init__
                | Some s => Supplied s
                end (ports (link_layer_at trx n)) (13 + n))
    as (Hchain & Htx & Hk).
  rewrite Hmk in Hchain, Htx, Hk. cbn [fst snd] in Hchain, Htx, Hk.
  split_and!; try reflexivity.
  - exists (13 + n). by rewrite Hchain.
  - exact Htx.
  - apply link_layer_ports_distinct.
  - destruct rx_synchronizer as [s0|].
    { destruct (make_link_layer_sync_supplied s0
                  (ports (link_layer_at trx n)) (13 + n))
        as (s7 & Hcalls & Hsync).
      rewrite Hmk in Hcalls, Hsync. cbn [fst snd] in Hcalls, Hsync.
      exists (13 + n), s7, k. split_and!; [done..|].
      intros i x Hx. by eapply supplied_calls_lookup. }
    rewrite make_link_layer_sync_default in Hmk.
    injection Hmk as <- <- <-.
    eexists. split; [reflexivity|]. split_and!.
    + reflexivity.
    + intros s Hs. cbn in Hs |- *. split; intros Hin; distinct_signals.
    + intros s Hs. cbn in Hs |- *. split; intros Hin; distinct_signals.
    + intros k'. cbn zeta. eexists. split_and!; reflexivity.
Qed.

(** C4: without an [rx_synchronizer] argument the satellite creates a
    [GenericRXSynchronizer], uses it for the [resync] calls and adds it
    to its submodules, before the five others; with an argument, the
    seven receive ports are passed, in order, to the [resync] method of
    the supplied object, each call on the state the call before left,
    the ports handed on are what these calls return, and the submodules
    are the five others only. *)
Theorem C4_default_synchronizer (trx : Transceiver)
    (channels : list Channel) (rx_synchronizer : option S)
    (fine full : option Z) (n : nat) :
  let r := __init__ trx channels rx_synchronizer fine full n in
  let sat := r.1.1 in
  let sync := r.1.2 in
  let ll := ports (link_layer sat) in
  let link_layer_sync := rps_link (wrapped (rt_packet sat)) in
  match rx_synchronizer with
  | None =>
      ∃ g, sync = Default g ∧
           (∃ k, (GenericRXSynchronizer.resync_all
                    GenericRXSynchronizer.__init__ (rx_ports ll) k).1
                 = (rx_ports link_layer_sync, g)) ∧
           submodules sat !! 0 = Some (None, SubRXSynchronizer g) ∧
           (∀ i name g', submodules sat !! i
                           = Some (name, SubRXSynchronizer g') → i = 0) ∧
           submodules sat =
             [ (None, SubRXSynchronizer g);
               (Some "link_layer", SubLinkLayer (link_layer sat));
               (Some "link_stats", SubLinkLayerStats (link_stats sat));
               (Some "rt_packet", SubRTPacket (rt_packet sat));
               (Some "ios", SubIOS (ios sat));
               (Some "aux_controller",
                SubAuxController (aux_controller sat)) ]
  | Some s =>
      (∃ k, (resync_each (Supplied s) (rx_ports ll) k).1
            = (rx_ports link_layer_sync, sync)) ∧
      (∃ s', sync = Supplied s') ∧
      (∀ i name g, submodules sat !! i ≠ Some (name, SubRXSynchronizer g)) ∧
      (∃ k s' k',
          supplied_calls s (rx_ports ll) k
            = (rx_ports link_layer_sync, s', k') ∧
          sync = Supplied s' ∧
          r.2 = 6 + k') ∧
      submodules sat =
        [ (Some "link_layer", SubLinkLayer (link_layer sat));
          (Some "link_stats", SubLinkLayerStats (link_stats sat));
          (Some "rt_packet", SubRTPacket (rt_packet sat));
          (Some "ios", SubIOS (ios sat));
          (Some "aux_controller", SubAuxController (aux_controller sat)) ]
  end.
Proof.
  open_init trx n rx_synchronizer lls r7 k Hmk.
  destruct rx_synchronizer as [s0|].
  - pose proof (make_link_layer_sync_spec (Supplied s0)
                  (ports (link_layer_at trx n)) (13 + n))
      as (Hchain & _ & _).
    rewrite Hmk in Hchain. cbn [fst snd] in Hchain.
    split_and!.
    + exists (13 + n). by rewrite Hchain.
    + clear Hchain. revert Hmk.
      unfold DRTIOSatellite.make_link_layer_sync,
        DRTIOSatellite.resync, call_supplied, bind, ret.
      repeat match goal with
             | |- context [supplied_resync ?s ?x ?j] =>
                 destruct (supplied_resync s x j) as [[? ?] ?]
             end.
      intros [= <- <- <-]. by eexists.
    + intros i name g Hi. cbn [app] in Hi.
      do 5 (destruct i as [|i]; [done|]). done.
    + destruct (make_link_layer_sync_supplied s0
                  (ports (link_layer_at trx n)) (13 + n))
        as (s7 & Hcalls & Hsync).
      rewrite Hmk in Hcalls, Hsync. cbn [fst snd] in Hcalls, Hsync.
      by exists (13 + n), s7, k.
    + reflexivity.
  - rewrite make_link_layer_sync_default in Hmk.
    injection Hmk as <- <- <-.
    eexists. split; [reflexivity|]. split_and!.
    + exists (13 + n). rewrite resync_all_eq. reflexivity.
    + reflexivity.
    + intros i name g' Hi.
      destruct i as [|i]; [done|].
      do 5 (destruct i as [|i]; [done|]). done.
    + reflexivity.
Qed.

(** C6: the satellite's timestamp widths default to 3 (fine) and 63
    (full), the master's fine width to 3; a width that is passed is
    used as passed. *)
Theorem C6_default_timestamp_widths (trx : Transceiver)
    (channels : list Channel) (rx_synchronizer : option S)
    (channel_count : option Z) (n : nat) :
  let sat fine full :=
    (__init__ trx channels rx_synchronizer fine full n).1.1 in
  let master fine :=
    (DRTIOMaster.__init__ link_width trx channel_count fine n).1 in
  ios_fine_ts_width (ios (sat None None)) = 3%Z ∧
  ios_full_ts_width (ios (sat None None)) = 63%Z ∧
  rtc_fine_ts_width (DRTIOMaster.rt_controller (master None)) = 3%Z ∧
  (∀ fine full,
      ios_fine_ts_width (ios (sat (Some fine) None)) = fine ∧
      ios_full_ts_width (ios (sat (Some fine) None)) = 63%Z ∧
      ios_fine_ts_width (ios (sat None (Some full))) = 3%Z ∧
      ios_full_ts_width (ios (sat None (Some full))) = full ∧
      ios_fine_ts_width (ios (sat (Some fine) (Some full))) = fine ∧
      ios_full_ts_width (ios (sat (Some fine) (Some full))) = full ∧
      rtc_fine_ts_width (DRTIOMaster.rt_controller (master (Some fine)))
        = fine).
Proof.
  open_init trx n rx_synchronizer lls r7 k Hmk.
  split_and!; try reflexivity.
  intros fine full.
  rewrite !(init_eq _ _ _ _ _ _ _ _ _ Hmk).
  split_and!; reflexivity.
Qed.

(** C7: the satellite creates the clock domains [rio] and [rio_phy],
    clocks both from [rtio], and drives the reset of [rio] from the packet
    engine's [reset] and the reset of [rio_phy] from its [reset_phy], each
    reset output driving that one domain only.  The transceiver exists
    before the satellite is built. *)
Theorem C7_reset_domains (trx : Transceiver) (channels : list Channel)
    (rx_synchronizer : option S) (fine full : option Z) (n : nat) :
  uid (trx_rx_ready trx) < n →
  reset_domains_wired
    (__init__ trx channels rx_synchronizer fine full n).1.1.
Proof.
  intros Hold. unfold reset_domains_wired.
  open_init trx n rx_synchronizer lls r7 k Hmk.
  pose proof (make_link_layer_sync_spec
                match rx_synchronizer with
                | None => Default GenericRXSynchronizer.__init__
                | Some s => Supplied s
                end (ports (link_layer_at trx n)) (13 + n))
    as (_ & _ & Hk).
  rewrite Hmk in Hk. cbn [snd] in Hk.
  destruct (trx_rx_ready trx) as [u w sg rel]. cbn [uid] in Hold.
  unfold drivers, driven_by, bit.
  cbn [omap list_omap clk rst cd_name].
  split_and!; try reflexivity;
    repeat case_decide; simplify_eq; try lia; reflexivity.
Qed.

End SatelliteProperties.

(** The hypothesis of C7 at a concrete design: an eight-bit link, a
    transceiver created first, the default synchronizer. *)
Lemma C7_reset_domains_witness :
  let trx := Drtio.mkTransceiver 0 [0; 1]
               (Migen.mkSignal 0 1 false None) in
  Migen.uid (Drtio.trx_rx_ready trx) < 1 ∧
  Drtio.DRTIOSatellite.reset_domains_wired
    (Drtio.DRTIOSatellite.__init__
       (λ (s : unit) sig _, (sig, s, 0)) 8 trx ([] : list unit)
       None None None 1).1.1.
Proof.
  cbn zeta. split; [cbn; lia|].
  apply (C7_reset_domains (λ (s : unit) sig _, (sig, s, 0)) 8).
  cbn. lia.
Defined.


(** ** The RT command stream *)

Section CommandOrder.
Import RTLink.

Lemma stream_inv_initial : stream_inv initial.
Proof. split; cbn; [done | unfold bridge_depth; lia]. Qed.

Lemma stream_inv_step s e : stream_inv s → stream_inv (step s e).
Proof.
  intros Hinv. pose proof Hinv as [Hsub Hlen].
  destruct s as [iss fl br obs errs]. cbn in Hsub, Hlen.
  destruct e as [c| | |]; cbn.
  - split; [|done]. cbn.
    rewrite !app_assoc. apply sublist_app; [|done].
    by rewrite <- !app_assoc.
  - destruct fl as [|f fs]; [done|].
    split; [|done]. cbn.
    etrans; [|exact Hsub].
    do 2 (apply sublist_app; [done|]). by apply sublist_cons.
  - destruct fl as [|f fs]; [done|].
    case_decide as Hroom; [|done].
    split; cbn.
    + by rewrite <- !app_assoc.
    + rewrite length_app. cbn. lia.
  - destruct br as [|f bs]; [done|].
    split; cbn.
    + by rewrite <- !app_assoc.
    + cbn in Hlen. lia.
Qed.

Lemma stream_inv_run es : ∀ s, stream_inv s → stream_inv (run s es).
Proof.
  induction es as [|e es IH]; intros s Hs; [done|].
  cbn. apply IH. by apply stream_inv_step.
Qed.

Lemma lossless_inv_run es : ∀ s,
  Corrupt ∉ es → lossless_inv s → lossless_inv (run s es).
Proof.
  induction es as [|e es IH]; intros s Hno Hs; [done|].
  apply not_elem_of_cons in Hno as [Hne Hno].
  cbn. apply IH; [done|]. unfold lossless_inv in *.
  destruct s as [iss fl br obs errs]. cbn in Hs.
  destruct e as [c| | |]; cbn; [| done | |].
  - rewrite <- Hs. by rewrite <- !app_assoc.
  - destruct fl as [|f fs]; [done|].
    case_decide; cbn; [|done].
    by rewrite <- !app_assoc.
  - destruct br as [|f bs]; [done|].
    cbn. by rewrite <- !app_assoc.
Qed.

(** C5: whatever the master issues and however the link, the bridge and
    the satellite interleave while the link is up, the commands the
    satellite observes are commands the master issued, in the order it
    issued them; when no frame is corrupted they are exactly the first
    commands issued. *)
Theorem C5_commands_observed_in_issue_order (es : list Event) :
  let s := run initial es in
  observed s `sublist_of` issued s ∧
  length (bridged s) ≤ bridge_depth ∧
  (Corrupt ∉ es → observed s `prefix_of` issued s).
Proof.
  cbn zeta. destruct (stream_inv_run es initial stream_inv_initial)
    as [Hsub Hlen].
  split_and!; [|done|].
  - etrans; [|exact Hsub]. by apply sublist_inserts_r.
  - intros Hno.
    pose proof (lossless_inv_run es initial Hno eq_refl) as Hl.
    unfold lossless_inv in Hl. rewrite <- Hl. by apply prefix_app_r.
Qed.

End CommandOrder.

(** ** Scan objects *)

Section LinearScanProperties.
Import Scan.
Import LinearScan.

Lemma head_fmap_list {A B} (f : A → B) (l : list A) :
  head (f <$> l) = f <$> head l.
Proof. by destruct l. Qed.

Lemma range_length n : length (range n) = Z.to_nat n.
Proof. unfold range. by rewrite length_fmap, length_seq. Qed.

Lemma range_lookup n i :
  i < Z.to_nat n → range n !! i = Some (Z.of_nat i).
Proof.
  intros Hi. unfold range. rewrite list_lookup_fmap.
  by rewrite lookup_seq_lt.
Qed.

Lemma range_lookup_Some n i z : range n !! i = Some z → z = Z.of_nat i.
Proof.
  intros Hz. assert (i < Z.to_nat n) as Hi.
  { apply lookup_lt_Some in Hz. by rewrite range_length in Hz. }
  rewrite range_lookup in Hz by done. by simplify_eq.
Qed.

Lemma range_last n : (0 < n)%Z → last (range n) = Some (n - 1)%Z.
Proof.
  intros Hn. unfold range.
  replace (Z.to_nat n) with (S (Z.to_nat (n - 1))) by lia.
  rewrite fmap_last, seq_S, last_snoc. cbn. f_equal. lia.
Qed.

Lemma range_head n : (0 < n)%Z → head (range n) = Some 0%Z.
Proof.
  intros Hn. unfold range.
  replace (Z.to_nat n) with (S (Z.to_nat (n - 1))) by lia. done.
Qed.

(** C10 (for [0 <= npoints]): one full iteration of a linear scan yields
    [npoints] values and [__len__] is [npoints]; nothing for 0 points,
    [start] alone for 1 point, and from 2 points on the values run from
    [start] to [stop] in equal steps of [(stop - start)/(npoints - 1)]. *)
Theorem C10_linear_scan_evenly_spaced (self : t) :
  (0 ≤ npoints self)%Z → iteration_spec self.
Proof.
  intros Hn. destruct self as [a b n]. cbn in Hn.
  unfold iteration_spec, __iter__, __len__, _gen.
  cbn [start stop npoints].
  split_and!.
  - repeat case_decide; subst; [done..|].
    rewrite length_fmap, range_length. lia.
  - done.
  - intros ->. by rewrite decide_True.
  - intros ->. by rewrite decide_False, decide_True.
  - intros H2. rewrite !decide_False by lia.
    assert (Hne : Qc_of_Z (n - 1) ≠ Q2Qc 0).
    { rewrite <- Z2Qc_inj_0. intros Heq%Z2Qc_inj. lia. }
    split_and!.
    + rewrite head_fmap_list, range_head by lia. cbn.
      f_equal. rewrite Z2Qc_inj_0. ring.
    + rewrite fmap_last, range_last by lia. cbn.
      f_equal. field. exact Hne.
    + intros i x y Hx Hy.
      rewrite list_lookup_fmap in Hx, Hy.
      destruct (range n !! i) as [zi|] eqn:Hi; [|done].
      destruct (range n !! S i) as [zj|] eqn:Hj; [|done].
      apply range_lookup_Some in Hi, Hj. simplify_eq/=.
      rewrite Nat2Z.inj_succ.
      replace (Z.succ (Z.of_nat i)) with (Z.of_nat i + 1)%Z by lia.
      rewrite Z2Qc_inj_add, Z2Qc_inj_1. field. exact Hne.
Qed.

(** The hypothesis of C10 at a concrete scan: eleven points from 0 to 5. *)
Lemma C10_linear_scan_witness :
  iteration_spec (mk (Qc_of_Z 0) (Qc_of_Z 5) 11).
Proof. apply C10_linear_scan_evenly_spaced. cbn. lia. Defined.

(** A scan built with a negative [npoints] yields nothing, so the number
    of values is not [npoints]: [0 <= npoints] cannot be dropped. *)
Lemma C10_negative_npoints_counterexample :
  ¬ iteration_spec (mk (Qc_of_Z 0) (Qc_of_Z 1) (-1)).
Proof. intros (Hlen & _). vm_compute in Hlen. discriminate Hlen. Qed.

End LinearScanProperties.

Section RoundTrip.
Import Scan.
Context `{PyRandom}.

(** Evaluates [process] on a description: the dictionary lookups, then the
    binding of the keyword arguments. *)
Ltac run_process :=
  unfold Scannable.process, describe, NoScan.describe, LinearScan.describe,
    RandomScan.describe, ExplicitScan.describe;
  simplify_map_eq;
  unfold construct, required, optional;
  simplify_map_eq.

(** C9: for a scan object [s] obtained from a constructor call,
    [process] applied to [s.describe()] returns a scan object of the same
    class with the same constructor arguments; for [NoScan], [LinearScan]
    and [ExplicitScan] it is equal to [s] and so yields the same values. *)
Theorem C9_describe_process_round_trip (a : ctor_args) (g g1 : Rng)
    (s : ScanObject) :
  new a g = (Ok s, g1) →
  ∀ g2, ∃ s' g3,
    Scannable.process (describe s) g2 = (Ok s', g3) ∧
    type_of s' = type_of s ∧
    params s' = params s ∧
    params s' = a ∧
    (type_of s ≠ CRandomScan → s' = s ∧ iter s' = iter s).
Proof.
  intros Hnew g2. destruct a as [v r|a b n|a b n sd|l]; cbn in Hnew.
  - simplify_eq. run_process. eexists _, _. by split_and!.
  - simplify_eq. run_process. eexists _, _. by split_and!.
  - unfold RandomScan.__init__ in Hnew.
    cbn [LinearScan.__len__ LinearScan.npoints] in Hnew.
    destruct (decide (n < 0)%Z) as [Hneg|Hpos]; [by simplify_eq|].
    assert (Hn : Z.of_N (Z.to_N n) = n) by (apply Z2N.id; lia).
    destruct sd as [sd|].
    + destruct Random as [new_generator|] eqn:Hrandom; [|by simplify_eq].
      destruct (shuffle _ (new_generator sd)) as [seq1 ?] eqn:Hs1.
      simplify_eq/=. run_process. rewrite Hn.
      unfold RandomScan.__init__.
      cbn [LinearScan.__len__ LinearScan.npoints].
      rewrite decide_False, Hrandom, Hs1 by done.
      cbn. eexists _, _. split; [reflexivity|].
      cbn. rewrite Hn. by split_and!.
    + destruct (shuffle _ g) as [seq1 ?] eqn:Hs1.
      simplify_eq/=. run_process. rewrite Hn.
      unfold RandomScan.__init__.
      cbn [LinearScan.__len__ LinearScan.npoints].
      rewrite decide_False by done.
      destruct (shuffle _ g2) as [seq2 ?].
      cbn. eexists _, _. split; [reflexivity|].
      cbn. rewrite Hn. by split_and!.
  - simplify_eq. run_process. eexists _, _. by split_and!.
Qed.

End RoundTrip.

(** The hypothesis of C9 at a concrete scan: a random scan of three points
    without a seed, with the stand-in generator. *)
Lemma C9_round_trip_witness :
  let a := Scan.ARandomScan (Qc_of_Z 0) (Qc_of_Z 1) 3 None in
  ∃ s, @Scan.new Scan.reversing_random a tt = (Scan.Ok s, tt) ∧
       ∃ s' g3,
         @Scan.Scannable.process Scan.reversing_random (Scan.describe s) tt
           = (Scan.Ok s', g3) ∧
         Scan.type_of s' = Scan.type_of s ∧
         Scan.params s' = Scan.params s ∧
         Scan.params s' = a ∧
         (Scan.type_of s ≠ Scan.CRandomScan →
          s' = s ∧ Scan.iter s' = Scan.iter s).
Proof.
  cbn zeta. eexists. split; [reflexivity|].
  apply (@C9_describe_process_round_trip Scan.reversing_random
           (Scan.ARandomScan (Qc_of_Z 0) (Qc_of_Z 1) 3 None) tt tt).
  reflexivity.
Defined.

Section MultiScanProperties.
Import Scan.
Import MultiScanManager.

(** *** The product of the pools *)

Lemma bind_uniform_length {A B} (f : A → list B) (l : list A) (n : nat) :
  (∀ x, x ∈ l → length (f x) = n) → length (l ≫= f) = length l * n.
Proof.
  induction l as [|x l IH]; intros Hn; [done|].
  cbn. rewrite length_app, IH, Hn; [lia|by left|].
  intros y Hy. apply Hn. by right.
Qed.

Lemma bind_uniform_lookup {A B} (f : A → list B) (l : list A) (n idx : nat)
    (y : B) :
  (∀ x, x ∈ l → length (f x) = n) →
  (l ≫= f) !! idx = Some y →
  ∃ x, l !! (idx `div` n) = Some x ∧ f x !! (idx `mod` n) = Some y.
Proof.
  revert idx. induction l as [|x l IH]; intros idx Hn Hy; [done|].
  assert (Hx : length (f x) = n) by (apply Hn; by left).
  assert (Hl : ∀ z, z ∈ l → length (f z) = n)
    by (intros z Hz; apply Hn; by right).
  cbn in Hy. destruct (decide (idx < n)) as [Hlt|Hge].
  - rewrite lookup_app_l in Hy by lia.
    exists x. rewrite Nat.div_small, Nat.mod_small by done. done.
  - rewrite lookup_app_r in Hy by lia. rewrite Hx in Hy.
    assert (n ≠ 0) as Hn0.
    { intros ->. apply lookup_lt_Some in Hy.
      rewrite (bind_uniform_length f l 0) in Hy by done. lia. }
    destruct (IH (idx - n) Hl Hy) as (z & Hz & Hfz).
    exists z.
    replace idx with ((idx - n) + 1 * n) by lia.
    rewrite Nat.div_add, Nat.Div0.mod_add by done.
    rewrite Nat.add_1_r. done.
Qed.

Lemma product_length {A} (pools : list (list A)) :
  length (product pools) = foldr Nat.mul 1 (length <$> pools).
Proof.
  induction pools as [|p r IH]; [done|].
  cbn. rewrite (bind_uniform_length _ _ (length (product r))).
  - by rewrite IH.
  - intros x _. by rewrite length_fmap.
Qed.

Lemma product_tuple_length {A} (pools : list (list A)) (t : list A) :
  t ∈ product pools → length t = length pools.
Proof.
  revert t. induction pools as [|p r IH]; intros t Ht.
  - apply list_elem_of_singleton in Ht. by subst.
  - cbn in Ht. apply list_elem_of_bind in Ht as (x & Ht & _).
    apply list_elem_of_fmap in Ht as (t' & -> & Ht').
    cbn. by rewrite (IH t').
Qed.

(** The [idx]-th tuple of the product takes, in each pool, the element at
    the position given by [positions]. *)
Lemma product_lookup {A} (pools : list (list A)) : ∀ idx (t : list A),
  product pools !! idx = Some t →
  ∀ j pool, pools !! j = Some pool →
    ∃ pos v, MultiScanManager.positions (length <$> pools) idx !! j
               = Some pos ∧
             pool !! pos = Some v ∧ t !! j = Some v.
Proof.
  induction pools as [|p r IH]; intros idx t Ht j pool Hj; [done|].
  cbn in Ht.
  apply (bind_uniform_lookup _ _ (length (product r))) in Ht
    as (x & Hx & Ht); [|intros y _; by rewrite length_fmap].
  rewrite list_lookup_fmap in Ht.
  destruct (product r !! (idx `mod` length (product r))) as [t'|] eqn:Ht';
    [|done].
  cbn in Ht. simplify_eq.
  cbn [fmap list_fmap MultiScanManager.positions].
  rewrite <- product_length.
  destruct j as [|j]; cbn in Hj |- *.
  - simplify_eq. by exists (idx `div` length (product r)), x.
  - by apply (IH _ _ Ht').
Qed.

(** The positions are the mixed-radix digits of the index: they are
    within the pools and give the index back, most significant first. *)
Lemma positions_index lens : ∀ idx,
  idx < foldr Nat.mul 1 lens →
  MultiScanManager.index_of lens (MultiScanManager.positions lens idx) = idx ∧
  Forall2 (λ d l, d < l) (MultiScanManager.positions lens idx) lens.
Proof.
  induction lens as [|l ls IH]; intros idx Hidx; cbn in *.
  - split; [lia|constructor].
  - set (n := foldr Nat.mul 1 ls) in *.
    assert (n ≠ 0) as Hn by (intros Hz; rewrite Hz in Hidx; lia).
    destruct (IH (idx `mod` n)) as [Hi Hf];
      [by apply Nat.mod_upper_bound|].
    split.
    + rewrite Hi. rewrite (Nat.div_mod_eq idx n) at 3. lia.
    + constructor; [|done].
      apply Nat.Div0.div_lt_upper_bound. lia.
Qed.

(** *** The keyword dictionary and the point built from it *)

Lemma dict_of_list_to_map (names : list string) (values : list Qc) :
  dict_of names values = list_to_map (reverse (zip names values)).
Proof.
  unfold dict_of. generalize (zip names values). intros l.
  induction l as [|[k v] l IH] using rev_ind; [done|].
  rewrite foldl_app, reverse_snoc. cbn. by rewrite IH.
Qed.

Lemma dict_of_lookup (names : list string) (values : list Qc) j k v :
  NoDup names → length names = length values →
  names !! j = Some k → values !! j = Some v →
  dict_of names values !! k = Some v.
Proof.
  intros Hnd Hlen Hk Hv. rewrite dict_of_list_to_map.
  apply elem_of_list_to_map_1.
  - rewrite fmap_reverse, fst_zip by lia. by rewrite reverse_Permutation.
  - apply elem_of_reverse, list_elem_of_lookup. exists j.
    apply lookup_zip_with_Some. by exists k, v.
Qed.

Lemma dict_of_dom (names : list string) (values : list Qc) :
  length names = length values →
  dom (dict_of names values) = list_to_set names.
Proof.
  intros Hlen. rewrite dict_of_list_to_map, dom_list_to_map_L.
  rewrite fmap_reverse, fst_zip by lia.
  apply set_eq. intros k.
  by rewrite !elem_of_list_to_set, elem_of_reverse.
Qed.

(** Without a reserved keyword, the constructor stores every keyword as
    an attribute and collects the keys in [attr]. *)
Lemma scan_point_init (kwargs : gmap string Qc) :
  (∀ k, k ∈ dom kwargs → k ∉ reserved) →
  ScanPoint.__init__ kwargs
  = Ok (<["attr" := ASet (dom kwargs)]> (AVal <$> kwargs)).
Proof.
  intros Hres. unfold ScanPoint.__init__.
  rewrite decide_False.
  2:{ intros Hself%Hres. apply Hself. set_solver. }
  revert Hres.
  apply (map_fold_weak_ind
    (λ r (m : gmap string Qc),
       (∀ k, k ∈ dom m → k ∉ reserved) →
       r = Ok (<["attr" := ASet (dom m)]> (AVal <$> m)))).
  - intros _. by rewrite dom_empty_L, fmap_empty.
  - intros k v m r Hk IH Hres.
    assert (k ∉ reserved) as Hkres.
    { apply Hres. rewrite dom_insert_L. set_solver. }
    assert (k ≠ "attr" ∧ k ≠ "__class__" ∧ k ≠ "__dict__"
            ∧ k ≠ "__weakref__") as (Hne & Hc & Hd & Hw).
    { unfold reserved in Hkres. set_solver. }
    rewrite IH.
    2:{ intros k' Hk'. apply Hres. rewrite dom_insert_L. set_solver. }
    cbn. unfold ScanPoint.setattr.
    rewrite decide_False by (intros [?|?]; done).
    rewrite decide_False by done. cbn.
    rewrite lookup_insert_ne, lookup_insert_eq by done.
    f_equal. rewrite dom_insert_L, fmap_insert.
    apply map_eq. intros i.
    destruct (decide (i = "attr")) as [->|Hi]; [by simplify_map_eq|].
    destruct (decide (i = k)) as [->|Hik]; by simplify_map_eq.
Qed.

Lemma yield_points_ok (names : list string) (tuples : list (list Qc)) :
  NoDup names → (∀ k, k ∈ names → k ∉ reserved) →
  (∀ t, t ∈ tuples → length t = length names) →
  yield_points names tuples
  = ((λ t, <["attr" := ASet (list_to_set names)]>
             (AVal <$> dict_of names t)) <$> tuples, None).
Proof.
  intros Hnd Hres. induction tuples as [|t ts IH]; intros Hlen;
    [done|].
  assert (length names = length t) as Ht
    by (symmetry; apply Hlen; by left).
  cbn. rewrite scan_point_init, IH.
  - by rewrite dict_of_dom.
  - intros t' Ht'. apply Hlen. by right.
  - rewrite dict_of_dom by done. intros k Hk. apply Hres.
    by apply elem_of_list_to_set in Hk.
Qed.

(** Whether [product] raises on the scans. *)
Lemma negative_len_false (args : list (string * ScanObject)) :
  (∀ a, a ∈ args → (0 ≤ len a.2)%Z) →
  existsb (λ s, (len s <? 0)%Z) (snd <$> args) = false.
Proof.
  induction args as [|a args IH]; intros Hlen; [done|].
  cbn. rewrite IH by (intros a' Ha'; apply Hlen; by right).
  rewrite orb_false_r. apply Z.ltb_ge. apply Hlen. by left.
Qed.

Lemma negative_len_true (args : list (string * ScanObject)) :
  (∃ a, a ∈ args ∧ (len a.2 < 0)%Z) →
  existsb (λ s, (len s <? 0)%Z) (snd <$> args) = true.
Proof.
  intros (a & Ha & Hneg). apply existsb_exists. exists a.2. split.
  - apply list_elem_of_In, list_elem_of_fmap. by exists a.
  - by apply Z.ltb_lt.
Qed.

(** C8 (for pairwise different names, none of them reserved, and scans
    of which none has a negative length): iterating the manager yields
    one point per tuple of the Cartesian product of the scans, the last
    scan varying fastest; each point has one attribute per registered
    name, bound to the value of that scan in the tuple, and [attr] holds
    the names. *)
Theorem C8_multi_scan_is_cartesian_product
    (args : list (string * ScanObject)) :
  NoDup (fst <$> args) →
  (∀ k, k ∈ fst <$> args → k ∉ reserved) →
  (∀ a, a ∈ args → (0 ≤ len a.2)%Z) →
  product_points_spec args.
Proof.
  intros Hnd Hres Hnonneg. unfold product_points_spec.
  cbn zeta. unfold __iter__, _gen, __init__. cbn [names scan_objects].
  rewrite (negative_len_false args Hnonneg).
  set (nms := fst <$> args). set (pools := iter <$> (snd <$> args)).
  assert (Hpools : length pools = length nms)
    by (unfold pools, nms; by rewrite !length_fmap).
  assert (Hlens : (λ a : string * ScanObject, length (iter a.2)) <$> args
                  = length <$> pools).
  { unfold pools. by rewrite <- !list_fmap_compose. }
  rewrite yield_points_ok; [|done..|].
  2:{ intros t Ht. apply product_tuple_length in Ht. lia. }
  eexists. split; [reflexivity|]. rewrite Hlens. split.
  { by rewrite length_fmap, product_length. }
  intros idx p Hp. rewrite list_lookup_fmap in Hp.
  destruct (product pools !! idx) as [t|] eqn:Ht; [|done].
  cbn in Hp. simplify_eq.
  assert (Htl : length nms = length t).
  { apply list_elem_of_lookup_2, product_tuple_length in Ht. lia. }
  split_and!.
  - intros j name scan Hj.
    assert (Hpool : pools !! j = Some (iter scan)).
    { unfold pools. by rewrite !list_lookup_fmap, Hj. }
    destruct (product_lookup pools idx t Ht j _ Hpool)
      as (pos & v & Hpos & Hv & Htj).
    exists pos, v. split_and!; [done..|].
    assert (Hname : nms !! j = Some name).
    { unfold nms. by rewrite list_lookup_fmap, Hj. }
    assert (name ≠ "attr") as Hne.
    { intros ->. apply (Hres "attr").
      - by eapply list_elem_of_lookup_2.
      - unfold reserved. set_solver. }
    rewrite lookup_insert_ne, lookup_fmap by done.
    by rewrite (dict_of_lookup nms t j name v).
  - intros k Hk. rewrite lookup_insert_ne, lookup_fmap by done.
    rewrite fmap_is_Some, <- elem_of_dom, dict_of_dom by done.
    by rewrite elem_of_list_to_set.
  - by rewrite lookup_insert_eq.
Qed.

(** A keyword named [attr] replaces the bookkeeping set by a number,
    a keyword named [self] collides with the first parameter, and
    [__class__] cannot be set to a number: building the point raises. *)
Lemma scan_point_attr_raises :
  ScanPoint.__init__ {[ "attr" := Qc_of_Z 1 ]} = Raise AttributeError.
Proof. by vm_compute. Qed.

Lemma scan_point_self_raises :
  ScanPoint.__init__ {[ "self" := Qc_of_Z 1 ]} = Raise TypeError.
Proof. by vm_compute. Qed.

Lemma scan_point_class_raises :
  ScanPoint.__init__ {[ "__class__" := Qc_of_Z 1 ]} = Raise TypeError.
Proof. by vm_compute. Qed.

(** Two scans of two and three values give six points, not the five
    values of their concatenation. *)
Lemma multi_scan_not_a_concatenation :
  let s1 := OExplicitScan (ExplicitScan.mk [Qc_of_Z 1; Qc_of_Z 2]) in
  let s2 := OExplicitScan
              (ExplicitScan.mk [Qc_of_Z 5; Qc_of_Z 6; Qc_of_Z 7]) in
  length (__iter__ (__init__ [("a", s1); ("b", s2)])).1 = 6 ∧
  length (iter s1 ++ iter s2) = 5.
Proof. by vm_compute. Qed.

End MultiScanProperties.

(** The hypotheses of C8 at a concrete manager: a linear scan named [x]
    and an explicit scan named [y]. *)
Lemma C8_multi_scan_witness :
  let args :=
    [ ("x", Scan.OLinearScan (Scan.LinearScan.mk (Qc_of_Z 0) (Qc_of_Z 1) 2));
      ("y", Scan.OExplicitScan
              (Scan.ExplicitScan.mk [Qc_of_Z 5; Qc_of_Z 6; Qc_of_Z 7])) ] in
  NoDup (fst <$> args) ∧
  (∀ k, k ∈ fst <$> args → k ∉ Scan.MultiScanManager.reserved) ∧
  (∀ a, a ∈ args → (0 ≤ Scan.len a.2)%Z) ∧
  Scan.MultiScanManager.product_points_spec args.
Proof.
  cbn zeta.
  assert (Hlen : ∀ a, a ∈
    [ ("x", Scan.OLinearScan (Scan.LinearScan.mk (Qc_of_Z 0) (Qc_of_Z 1) 2));
      ("y", Scan.OExplicitScan
              (Scan.ExplicitScan.mk [Qc_of_Z 5; Qc_of_Z 6; Qc_of_Z 7])) ]
    → (0 ≤ Scan.len a.2)%Z).
  { intros a Ha.
    apply elem_of_cons in Ha as [->|Ha];
      [|apply list_elem_of_singleton in Ha as ->]; by vm_compute. }
  assert (Hnd : NoDup (fst <$>
    [ ("x", Scan.OLinearScan (Scan.LinearScan.mk (Qc_of_Z 0) (Qc_of_Z 1) 2));
      ("y", Scan.OExplicitScan
              (Scan.ExplicitScan.mk [Qc_of_Z 5; Qc_of_Z 6; Qc_of_Z 7])) ])).
  { apply (bool_decide_unpack _). vm_compute. exact I. }
  assert (Hres : ∀ k, k ∈ fst <$>
    [ ("x", Scan.OLinearScan (Scan.LinearScan.mk (Qc_of_Z 0) (Qc_of_Z 1) 2));
      ("y", Scan.OExplicitScan
              (Scan.ExplicitScan.mk [Qc_of_Z 5; Qc_of_Z 6; Qc_of_Z 7])) ]
    → k ∉ Scan.MultiScanManager.reserved).
  { intros k Hk. cbn in Hk.
    apply elem_of_cons in Hk as [->|Hk];
      [|apply list_elem_of_singleton in Hk as ->];
      apply (bool_decide_unpack _); vm_compute; exact I. }
  split_and!; [done..|].
  by apply C8_multi_scan_is_cartesian_product.
Defined.

(** Three inputs on which the specification fails.  Two scans registered
    under one name: the single point binds [x] to the value of the second
    scan, so the first scan's value is bound to no attribute.  A scan
    registered under the name [attr]: building the first point raises
    and no point is yielded.  A scan of negative length, [NoScan(1, -1)]:
    [product] raises [ValueError] and no point is yielded. *)
Lemma C8_multi_scan_counterexample :
  ¬ Scan.MultiScanManager.product_points_spec
      [ ("x", Scan.OExplicitScan (Scan.ExplicitScan.mk [Qc_of_Z 1]));
        ("x", Scan.OExplicitScan (Scan.ExplicitScan.mk [Qc_of_Z 2])) ] ∧
  ¬ Scan.MultiScanManager.product_points_spec
      [ ("attr", Scan.OExplicitScan (Scan.ExplicitScan.mk [Qc_of_Z 1])) ] ∧
  ¬ Scan.MultiScanManager.product_points_spec
      [ ("x", Scan.ONoScan (Scan.NoScan.mk (Qc_of_Z 1) (-1))) ].
Proof.
  split_and!.
  - intros (points & Hiter & _ & Hpts).
    assert (Hrun :
      Scan.MultiScanManager.__iter__
        (Scan.MultiScanManager.__init__
           [ ("x", Scan.OExplicitScan (Scan.ExplicitScan.mk [Qc_of_Z 1]));
             ("x", Scan.OExplicitScan (Scan.ExplicitScan.mk [Qc_of_Z 2])) ])
      = ([ <["attr" := Scan.ASet {["x"]}]>
             {[ "x" := Scan.AVal (Qc_of_Z 2) ]} ], None))
      by (by vm_compute).
    rewrite Hrun in Hiter. injection Hiter as <-.
    destruct (Hpts 0 _ eq_refl) as (Hbound & _).
    destruct (Hbound 0 "x" _ eq_refl) as (pos & v & Hpos & Hv & Hx).
    cbn in Hpos. injection Hpos as <-.
    cbn in Hv. injection Hv as <-.
    rewrite lookup_insert_ne, lookup_singleton_eq in Hx by done.
    discriminate Hx.
  - intros (points & Hiter & _).
    assert (Hrun :
      Scan.MultiScanManager.__iter__
        (Scan.MultiScanManager.__init__
           [ ("attr",
              Scan.OExplicitScan (Scan.ExplicitScan.mk [Qc_of_Z 1])) ])
      = ([], Some Scan.AttributeError))
      by (by vm_compute).
    rewrite Hrun in Hiter. discriminate Hiter.
  - intros (points & Hiter & _).
    assert (Hrun :
      Scan.MultiScanManager.__iter__
        (Scan.MultiScanManager.__init__
           [ ("x", Scan.ONoScan (Scan.NoScan.mk (Qc_of_Z 1) (-1))) ])
      = ([], Some Scan.ValueError))
      by (by vm_compute).
    rewrite Hrun in Hiter. discriminate Hiter.
Qed.

(* ===================================================================== *)
(** * Part III: further properties of the code                            *)
(* ===================================================================== *)

(** ** More on the scan objects *)

Section ScanValues.
Import Scan.

(** The [i]-th value of a linear scan of at least two points. *)
Lemma linear_scan_lookup (a b : Qc) (n : Z) (i : nat) (x : Qc) :
  (2 ≤ n)%Z →
  LinearScan.__iter__ (LinearScan.mk a b n) !! i = Some x ↔
  (Z.of_nat i < n)%Z ∧
  x = (Qc_of_Z (Z.of_nat i) * ((b - a) / Qc_of_Z (n - 1)) + a)%Qc.
Proof.
  intros Hn. unfold LinearScan.__iter__, LinearScan._gen.
  cbn [LinearScan.start LinearScan.stop LinearScan.npoints].
  rewrite !decide_False by lia. rewrite list_lookup_fmap. split.
  - intros Hx. destruct (range n !! i) as [z|] eqn:Hz; [|done].
    pose proof (lookup_lt_Some _ _ _ Hz) as Hlt.
    rewrite range_length in Hlt.
    apply range_lookup_Some in Hz as ->. cbn in Hx. simplify_eq.
    split; [lia|done].
  - intros [Hi ->]. rewrite range_lookup by lia. done.
Qed.

Lemma linear_scan_length (a b : Qc) (n : Z) :
  length (LinearScan.__iter__ (LinearScan.mk a b n)) = Z.to_nat n.
Proof.
  unfold LinearScan.__iter__, LinearScan._gen.
  cbn [LinearScan.start LinearScan.stop LinearScan.npoints].
  repeat case_decide; subst; try reflexivity.
  by rewrite length_fmap, range_length.
Qed.

Lemma Qc_of_Z_pos (z : Z) : (0 < z)%Z → (Q2Qc 0 < Qc_of_Z z)%Qc.
Proof. intros Hz. by apply (proj1 (Z2Qc_inj_lt 0 z)). Qed.

Lemma Qc_of_Z_nonneg (z : Z) : (0 ≤ z)%Z → (Q2Qc 0 ≤ Qc_of_Z z)%Qc.
Proof. intros Hz. by apply (proj1 (Z2Qc_inj_le 0 z)). Qed.

(** X1: a [NoScan] yields its value [repetitions] times, nothing when
    [repetitions] is not positive; [__len__] is the number of values
    yielded exactly when [repetitions] is not negative. *)
Theorem X1_noscan_repeats_value (self : NoScan.t) :
  NoScan.__iter__ self
    = replicate (Z.to_nat (NoScan.repetitions self)) (NoScan.value self) ∧
  (Z.of_nat (length (NoScan.__iter__ self)) = NoScan.__len__ self
   ↔ (0 ≤ NoScan.repetitions self)%Z).
Proof.
  destruct self as [v r]. unfold NoScan.__iter__, NoScan._gen, NoScan.__len__.
  cbn [NoScan.value NoScan.repetitions].
  assert (Hrep : ((λ _ : Z, v) <$> range r) = replicate (Z.to_nat r) v).
  { rewrite <- (range_length r).
    induction (range r) as [|x l IH]; [done|]. cbn. by rewrite IH. }
  split; [done|]. rewrite Hrep, length_replicate. lia.
Qed.

(** X2, in exact rational arithmetic: when [start <= stop], every value
    a linear scan yields lies between [start] and [stop].  (In floats
    the last value can exceed [stop] by a rounding error.) *)
Theorem X2_linear_scan_within_bounds (self : LinearScan.t) (x : Qc) :
  (LinearScan.start self ≤ LinearScan.stop self)%Qc →
  x ∈ LinearScan.__iter__ self →
  (LinearScan.start self ≤ x ≤ LinearScan.stop self)%Qc.
Proof.
  destruct self as [a b n]. cbn [LinearScan.start LinearScan.stop].
  intros Hab Hx.
  destruct (decide (n = 0%Z)) as [->|Hn0].
  { by apply elem_of_nil in Hx. }
  destruct (decide (n = 1%Z)) as [->|Hn1].
  { apply list_elem_of_singleton in Hx as ->. split; [apply Qcle_refl|done]. }
  apply list_elem_of_lookup in Hx as [i Hi].
  assert (2 ≤ n)%Z as Hn.
  { apply lookup_lt_Some in Hi. rewrite linear_scan_length in Hi. lia. }
  apply linear_scan_lookup in Hi as [Hlt ->]; [|done].
  assert (Hpos : (Q2Qc 0 < Qc_of_Z (n - 1))%Qc) by (apply Qc_of_Z_pos; lia).
  assert (Hne : Qc_of_Z (n - 1) ≠ Q2Qc 0).
  { rewrite <- Z2Qc_inj_0. intros Heq%Z2Qc_inj. lia. }
  assert (Hba : (Q2Qc 0 ≤ b - a)%Qc).
  { exact (proj1 (Qcle_minus_iff a b) Hab). }
  assert (Hdx : (Q2Qc 0 ≤ (b - a) / Qc_of_Z (n - 1))%Qc).
  { unfold Qcdiv. apply Qcmult_nonneg_nonneg; [done|].
    apply Qclt_le_weak, Qcinv_pos, Hpos. }
  split.
  - rewrite <- (Qcplus_0_l a) at 1. apply Qcplus_le_compat; [|apply Qcle_refl].
    apply Qcmult_nonneg_nonneg; [|done]. apply Qc_of_Z_nonneg. lia.
  - replace b with (Qc_of_Z (n - 1) * ((b - a) / Qc_of_Z (n - 1)) + a)%Qc
      at 2 by (field; done).
    apply Qcplus_le_compat; [|apply Qcle_refl].
    apply Qcmult_le_mono_nonneg_r; [done|].
    apply (proj1 (Z2Qc_inj_le _ _)). lia.
Qed.

(** X3, in exact rational arithmetic: when [start < stop], a linear
    scan is strictly increasing: a value yielded later is larger, so no
    value is yielded twice.  (In floats two neighbours can round to the
    same value.) *)
Theorem X3_linear_scan_strictly_increasing (self : LinearScan.t)
    (i j : nat) (x y : Qc) :
  (LinearScan.start self < LinearScan.stop self)%Qc →
  i < j →
  LinearScan.__iter__ self !! i = Some x →
  LinearScan.__iter__ self !! j = Some y →
  (x < y)%Qc.
Proof.
  destruct self as [a b n]. cbn [LinearScan.start LinearScan.stop].
  intros Hab Hij Hx Hy.
  assert (2 ≤ n)%Z as Hn.
  { apply lookup_lt_Some in Hy. rewrite linear_scan_length in Hy. lia. }
  apply linear_scan_lookup in Hx as [_ ->]; [|done].
  apply linear_scan_lookup in Hy as [_ ->]; [|done].
  assert (Hpos : (Q2Qc 0 < Qc_of_Z (n - 1))%Qc) by (apply Qc_of_Z_pos; lia).
  assert (Hdx : (Q2Qc 0 < (b - a) / Qc_of_Z (n - 1))%Qc).
  { unfold Qcdiv. apply Qcmult_pos_pos; [|by apply Qcinv_pos].
    exact (proj1 (Qclt_minus_iff a b) Hab). }
  apply (proj1 (Qcplus_lt_mono_r _ _ a)).
  apply Qcmult_lt_compat_r; [done|].
  apply (proj1 (Z2Qc_inj_lt _ _)). lia.
Qed.

(** X4, in exact rational arithmetic: exchanging [start] and [stop]
    reverses a linear scan, except for a scan of one point, which yields
    its [start] either way.  (In floats the two directions round
    differently.) *)
Theorem X4_linear_scan_reversed (a b : Qc) (n : Z) :
  n ≠ 1%Z →
  LinearScan.__iter__ (LinearScan.mk b a n)
  = reverse (LinearScan.__iter__ (LinearScan.mk a b n)).
Proof.
  intros Hn1. destruct (decide (2 ≤ n)%Z) as [Hn|Hn].
  2:{ assert (Hnil : ∀ c d, LinearScan.__iter__ (LinearScan.mk c d n) = []).
      { intros c d. apply length_zero_iff_nil.
        rewrite linear_scan_length. lia. }
      by rewrite !Hnil. }
  assert (Hne : Qc_of_Z (n - 1) ≠ Q2Qc 0).
  { rewrite <- Z2Qc_inj_0. intros Heq%Z2Qc_inj. lia. }
  apply list_eq. intros i.
  destruct (decide (i < Z.to_nat n)) as [Hi|Hi].
  - rewrite reverse_lookup by (rewrite linear_scan_length; lia).
    rewrite linear_scan_length.
    assert (Z.of_nat i < n)%Z as Hi1 by lia.
    assert (Z.of_nat (Z.to_nat n - S i) < n)%Z as Hi2 by lia.
    rewrite (proj2 (linear_scan_lookup b a n i _ Hn) (conj Hi1 eq_refl)).
    rewrite (proj2 (linear_scan_lookup a b n (Z.to_nat n - S i) _ Hn)
               (conj Hi2 eq_refl)).
    f_equal.
    replace (Z.of_nat (Z.to_nat n - S i)) with (n - 1 - Z.of_nat i)%Z by lia.
    rewrite (Z2Qc_inj_sub (n - 1) (Z.of_nat i)). field. exact Hne.
  - rewrite !lookup_ge_None_2; [done|..].
    + rewrite length_reverse, linear_scan_length. lia.
    + rewrite linear_scan_length. lia.
Qed.

(** X5, in exact rational arithmetic: a linear scan whose [start] and
    [stop] coincide yields what the [NoScan] of that value with
    [npoints] repetitions yields.  (A linear scan of integers too large
    for a float yields them rounded.) *)
Theorem X5_degenerate_linear_scan_is_noscan (a : Qc) (n : Z) :
  LinearScan.__iter__ (LinearScan.mk a a n)
  = NoScan.__iter__ (NoScan.mk a n).
Proof.
  unfold LinearScan.__iter__, LinearScan._gen, NoScan.__iter__, NoScan._gen.
  cbn [LinearScan.start LinearScan.stop LinearScan.npoints
       NoScan.value NoScan.repetitions].
  repeat case_decide; subst; try reflexivity.
  apply list_fmap_ext. intros _ i _. unfold Qcdiv. ring.
Qed.


End ScanValues.

(** The hypotheses of X2, X3 and X4 at concrete scans. *)
Lemma X2_linear_scan_witness :
  let s := Scan.LinearScan.mk (Qc_of_Z 0) (Qc_of_Z 4) 3 in
  (Scan.LinearScan.start s ≤ Scan.LinearScan.stop s)%Qc ∧
  Qc_of_Z 2 ∈ Scan.LinearScan.__iter__ s ∧
  (Scan.LinearScan.start s ≤ Qc_of_Z 2 ≤ Scan.LinearScan.stop s)%Qc.
Proof.
  cbn zeta.
  assert (Hle : (Qc_of_Z 0 ≤ Qc_of_Z 4)%Qc)
    by (apply (proj1 (Z2Qc_inj_le 0 4)); lia).
  assert (Hin : Qc_of_Z 2 ∈ Scan.LinearScan.__iter__
                  (Scan.LinearScan.mk (Qc_of_Z 0) (Qc_of_Z 4) 3)).
  { apply list_elem_of_lookup. exists 1.
    apply linear_scan_lookup; [lia|]. split; [lia|].
    apply Qc_is_canon. reflexivity. }
  split; [exact Hle | split; [exact Hin |]].
  exact (X2_linear_scan_within_bounds
           (Scan.LinearScan.mk (Qc_of_Z 0) (Qc_of_Z 4) 3) (Qc_of_Z 2)
           Hle Hin).
Defined.

Lemma X3_linear_scan_witness :
  let s := Scan.LinearScan.mk (Qc_of_Z 0) (Qc_of_Z 4) 3 in
  (Scan.LinearScan.start s < Scan.LinearScan.stop s)%Qc ∧
  Scan.LinearScan.__iter__ s !! 0 = Some (Qc_of_Z 0) ∧
  Scan.LinearScan.__iter__ s !! 2 = Some (Qc_of_Z 4) ∧
  (Qc_of_Z 0 < Qc_of_Z 4)%Qc.
Proof.
  cbn zeta.
  assert (Hlt : (Qc_of_Z 0 < Qc_of_Z 4)%Qc)
    by (apply (proj1 (Z2Qc_inj_lt 0 4)); lia).
  assert (H0 : Scan.LinearScan.__iter__
                 (Scan.LinearScan.mk (Qc_of_Z 0) (Qc_of_Z 4) 3) !! 0
               = Some (Qc_of_Z 0)).
  { apply linear_scan_lookup; [lia|]. split; [lia|].
    apply Qc_is_canon. reflexivity. }
  assert (H2 : Scan.LinearScan.__iter__
                 (Scan.LinearScan.mk (Qc_of_Z 0) (Qc_of_Z 4) 3) !! 2
               = Some (Qc_of_Z 4)).
  { apply linear_scan_lookup; [lia|]. split; [lia|].
    apply Qc_is_canon. reflexivity. }
  split; [exact Hlt | split; [exact H0 | split; [exact H2 |]]].
  apply (X3_linear_scan_strictly_increasing
           (Scan.LinearScan.mk (Qc_of_Z 0) (Qc_of_Z 4) 3) 0 2
           (Qc_of_Z 0) (Qc_of_Z 4) Hlt); [lia | exact H0 | exact H2].
Defined.

Lemma X4_linear_scan_witness :
  (3 ≠ 1)%Z ∧
  Scan.LinearScan.__iter__ (Scan.LinearScan.mk (Qc_of_Z 4) (Qc_of_Z 0) 3)
  = reverse (Scan.LinearScan.__iter__
               (Scan.LinearScan.mk (Qc_of_Z 0) (Qc_of_Z 4) 3)).
Proof.
  split; [lia|]. apply X4_linear_scan_reversed. lia.
Defined.

(** ** Random scans and the name [Random] *)

Section RandomScanProperties.
Import Scan.
Context `{PyRandom}.

(** The keyword dictionary [process] collects holds, for every parameter
    name of the class, the entry of the description, and nothing else. *)
Lemma collect_args_lookup (x : gmap string pyval) (l : list string)
    (k : string) : ∀ m : gmap string pyval,
  foldl (λ args arg, match x !! arg with
                     | Some v => <[arg := v]> args
                     | None => args
                     end) m l !! k
  = if decide (k ∈ l)
    then match x !! k with Some v => Some v | None => m !! k end
    else m !! k.
Proof.
  induction l as [|a l IH]; intros m.
  - cbn. by rewrite decide_False by set_solver.
  - cbn [foldl]. rewrite IH.
    destruct (decide (k = a)) as [->|Hne].
    + rewrite (decide_True (P := a ∈ a :: l)) by set_solver.
      destruct (x !! a) as [v|] eqn:Hx.
      * rewrite lookup_insert_eq. by case_decide.
      * by case_decide.
    + assert (m' : match x !! a with
                   | Some v => <[a := v]> m
                   | None => m
                   end !! k = m !! k).
      { destruct (x !! a); [by rewrite lookup_insert_ne|done]. }
      rewrite m'.
      destruct (decide (k ∈ l)) as [Hin|Hnin].
      * rewrite decide_True; [done|by right].
      * rewrite decide_False; [done|].
        by intros [?|?]%elem_of_cons.
Qed.

Lemma process_class (x : gmap string pyval) (ty : string) (cls : scan_cls)
    (g : Rng) :
  x !! "ty" = Some (PStr ty) → _ty_to_scan !! ty = Some cls →
  ∃ args : gmap string pyval,
    Scannable.process x g = construct cls args g ∧
    ∀ k, args !! k = if decide (k ∈ drop 1 (getargspec_args cls))
                     then x !! k else None.
Proof.
  intros Hty Hcls. unfold Scannable.process. rewrite Hty, Hcls.
  eexists. split; [reflexivity|]. intros k.
  rewrite collect_args_lookup, lookup_empty.
  case_decide; [|done]. by destruct (x !! k).
Qed.

(** Re-processing a description is the constructor call with the
    attributes of the described object. *)
Lemma process_describe (s : ScanObject) (g : Rng) :
  Scannable.process (describe s) g = new (params s) g.
Proof.
  destruct s as [[v r]|[a b n]|[a b n sd sq]|[l]];
    unfold Scannable.process, describe, NoScan.describe,
      LinearScan.describe, RandomScan.describe, ExplicitScan.describe;
    simplify_map_eq; unfold construct, required, optional;
    simplify_map_eq; try reflexivity.
  by destruct sd.
Qed.

(** X7: when [random.shuffle] permutes its argument, a random scan
    yields the values of the linear scan with the same arguments, each as
    often, in some order, and [npoints] of them when [npoints] is not
    negative. *)
Theorem X7_random_scan_permutes_linear_scan (a b : Qc) (n : Z)
    (sd : option Z) (g g' : Rng) (s : RandomScan.t) :
  (∀ l g0, (shuffle l g0).1 ≡ₚ l) →
  RandomScan.__init__ a b n sd g = (Ok s, g') →
  RandomScan.__iter__ s ≡ₚ LinearScan.__iter__ (LinearScan.mk a b n) ∧
  length (RandomScan.__iter__ s) = Z.to_nat (RandomScan.__len__ s).
Proof.
  intros Hperm Hinit.
  assert (Hs : RandomScan.__iter__ s
               ≡ₚ LinearScan.__iter__ (LinearScan.mk a b n)
               ∧ RandomScan.__len__ s = n).
  { unfold RandomScan.__init__ in Hinit.
    cbn [LinearScan.__len__ LinearScan.npoints] in Hinit.
    destruct (decide (n < 0)%Z) as [Hneg|Hpos]; [done|].
    assert (Hn : Z.of_N (Z.to_N n) = n) by (apply Z2N.id; lia).
    destruct sd as [sd|].
    - destruct Random as [f|]; [|done].
      pose proof (Hperm (LinearScan.__iter__ (LinearScan.mk a b n)) (f sd))
        as Hp.
      destruct (shuffle _ (f sd)) as [sq ?]. cbn in Hp.
      simplify_eq. by split.
    - pose proof (Hperm (LinearScan.__iter__ (LinearScan.mk a b n)) g)
        as Hp.
      destruct (shuffle _ g) as [sq ?]. cbn in Hp.
      simplify_eq. by split. }
  destruct Hs as [Hp Hn]. split; [done|].
  by rewrite Hp, Hn, linear_scan_length.
Qed.

(** X8: when the name [Random] is unbound, processing the description
    of a random scan with [npoints] not negative and an integer seed
    raises [NameError] and leaves the generator alone; with the seed
    absent or [None] it returns a random scan without a seed.  When
    [npoints] is negative it raises [ValueError], with or without a
    seed. *)
Theorem X8_seeded_description_needs_Random (x : gmap string pyval)
    (a b : Qc) (n : Z) (g : Rng) :
  Random = None →
  x !! "ty" = Some (PStr "RandomScan") →
  x !! "start" = Some (PNum a) → x !! "stop" = Some (PNum b) →
  x !! "npoints" = Some (PInt n) →
  ((0 ≤ n)%Z → ∀ sd, x !! "seed" = Some (PInt sd) →
     Scannable.process x g = (Raise NameError, g)) ∧
  ((0 ≤ n)%Z → x !! "seed" = None ∨ x !! "seed" = Some PNone →
   ∃ s g', Scannable.process x g = (Ok (ORandomScan s), g') ∧
           RandomScan.seed s = None ∧
           RandomScan.start s = a ∧ RandomScan.stop s = b ∧
           RandomScan.__len__ s = n) ∧
  ((n < 0)%Z →
   x !! "seed" = None ∨ x !! "seed" = Some PNone ∨
     (∃ sd, x !! "seed" = Some (PInt sd)) →
   Scannable.process x g = (Raise ValueError, g)).
Proof.
  intros Hrandom Hty Ha Hb Hn.
  destruct (process_class x "RandomScan" CRandomScan g Hty eq_refl)
    as (args & -> & Hargs).
  pose proof (Hargs "start") as Hsa. pose proof (Hargs "stop") as Hso.
  pose proof (Hargs "npoints") as Hnp. pose proof (Hargs "seed") as Hse.
  cbn in Hsa, Hso, Hnp, Hse.
  rewrite decide_True in Hsa by set_solver.
  rewrite decide_True in Hso by set_solver.
  rewrite decide_True in Hnp by set_solver.
  rewrite decide_True in Hse by set_solver.
  unfold construct, required, optional.
  rewrite Hsa, Hso, Hnp, Hse, Ha, Hb, Hn. cbn.
  split_and!.
  - intros Hpos sd ->. cbn. unfold RandomScan.__init__.
    cbn [LinearScan.__len__ LinearScan.npoints].
    rewrite decide_False by lia. by rewrite Hrandom.
  - intros Hpos [-> | ->]; cbn; unfold RandomScan.__init__;
      cbn [LinearScan.__len__ LinearScan.npoints];
      rewrite decide_False by lia;
      destruct (shuffle _ g) as [sq g']; cbn; eexists _, _;
      (split_and!; [reflexivity..|]);
      unfold RandomScan.__len__; cbn; apply Z2N.id; lia.
  - intros Hneg [-> | [-> | [sd ->]]]; cbn; unfold RandomScan.__init__;
      cbn [LinearScan.__len__ LinearScan.npoints];
      by rewrite decide_True by lia.
Qed.

(** X9: when [Random] is bound, a random scan with an integer seed and
    [npoints] not negative shuffles with a generator of its own, started
    from the seed: the construction leaves the shared generator as it
    was, the order does not depend on it, and processing the description
    rebuilds the same object, with the same sequence, whatever state the
    shared generator is in by then.  With a negative [npoints] the
    construction raises [ValueError]. *)
Theorem X9_seeded_random_scan_reproducible (a b : Qc) (n sd : Z)
    (f : Z → Rng) (g : Rng) :
  Random = Some f →
  ((0 ≤ n)%Z →
   ∃ s, new (ARandomScan a b n (Some sd)) g = (Ok (ORandomScan s), g) ∧
        RandomScan.__iter__ s
        = (shuffle (LinearScan.__iter__ (LinearScan.mk a b n)) (f sd)).1 ∧
        ∀ g2, Scannable.process (describe (ORandomScan s)) g2
              = (Ok (ORandomScan s), g2)) ∧
  ((n < 0)%Z →
   new (ARandomScan a b n (Some sd)) g = (Raise ValueError, g)).
Proof.
  intros Hrandom. split.
  - intros Hpos.
    assert (Hn : Z.of_N (Z.to_N n) = n) by (apply Z2N.id; lia).
    assert (Hnew : ∀ g0, new (ARandomScan a b n (Some sd)) g0
      = (Ok (ORandomScan
               (RandomScan.mk a b (Z.to_N n) (Some sd)
                  (shuffle (LinearScan.__iter__ (LinearScan.mk a b n))
                           (f sd)).1)), g0)).
    { intros g0. cbn. unfold RandomScan.__init__.
      cbn [LinearScan.__len__ LinearScan.npoints].
      rewrite decide_False by lia. rewrite Hrandom.
      by destruct (shuffle _ (f sd)). }
    eexists. split; [apply Hnew|]. split; [reflexivity|].
    intros g2. rewrite process_describe. cbn [params RandomScan.start
      RandomScan.stop RandomScan.npoints RandomScan.seed].
    rewrite Hn. apply Hnew.
  - intros Hneg. cbn. unfold RandomScan.__init__.
    cbn [LinearScan.__len__ LinearScan.npoints].
    by rewrite decide_True by lia.
Qed.

End RandomScanProperties.

Lemma X7_random_scan_witness :
  (∀ l g0, (@Scan.shuffle Scan.reversing_random l g0).1 ≡ₚ l) ∧
  ∃ s, @Scan.RandomScan.__init__ Scan.reversing_random
         (Qc_of_Z 0) (Qc_of_Z 4) 3 None tt = (Scan.Ok s, tt) ∧
       Scan.RandomScan.__iter__ s
       ≡ₚ Scan.LinearScan.__iter__
            (Scan.LinearScan.mk (Qc_of_Z 0) (Qc_of_Z 4) 3) ∧
       length (Scan.RandomScan.__iter__ s)
       = Z.to_nat (Scan.RandomScan.__len__ s).
Proof.
  assert (Hperm : ∀ l g0,
            (@Scan.shuffle Scan.reversing_random l g0).1 ≡ₚ l)
    by (intros l g0; apply reverse_Permutation).
  split; [exact Hperm|].
  eexists. split; [reflexivity|].
  apply (@X7_random_scan_permutes_linear_scan Scan.reversing_random
           (Qc_of_Z 0) (Qc_of_Z 4) 3 None tt tt _ Hperm).
  reflexivity.
Defined.

Lemma X8_seeded_description_witness :
  let x : gmap string Scan.pyval :=
    {[ "ty" := Scan.PStr "RandomScan"; "start" := Scan.PNum (Qc_of_Z 0);
       "stop" := Scan.PNum (Qc_of_Z 4); "npoints" := Scan.PInt 3;
       "seed" := Scan.PInt 7 ]} in
  @Scan.Random Scan.reversing_random = None ∧
  x !! "seed" = Some (Scan.PInt 7%Z) ∧
  @Scan.Scannable.process Scan.reversing_random x tt
  = (Scan.Raise Scan.NameError, tt).
Proof.
  cbn zeta. split; [reflexivity|]. split; [reflexivity|].
  destruct (@X8_seeded_description_needs_Random Scan.reversing_random
              {[ "ty" := Scan.PStr "RandomScan";
                 "start" := Scan.PNum (Qc_of_Z 0);
                 "stop" := Scan.PNum (Qc_of_Z 4); "npoints" := Scan.PInt 3;
                 "seed" := Scan.PInt 7 ]}
              (Qc_of_Z 0) (Qc_of_Z 4) 3 tt) as [Hseed _];
    [reflexivity..|].
  apply (Hseed ltac:(lia) 7%Z eq_refl).
Defined.

Lemma X9_seeded_random_scan_witness :
  @Scan.Random Scan.rotating_random = Some (λ seed, seed) ∧
  ∃ s, @Scan.new Scan.rotating_random
         (Scan.ARandomScan (Qc_of_Z 0) (Qc_of_Z 4) 3 (Some 1%Z)) 5%Z
       = (Scan.Ok (Scan.ORandomScan s), 5%Z) ∧
       Scan.RandomScan.__iter__ s
       = (@Scan.shuffle Scan.rotating_random
            (Scan.LinearScan.__iter__
               (Scan.LinearScan.mk (Qc_of_Z 0) (Qc_of_Z 4) 3)) 1%Z).1 ∧
       ∀ g2, @Scan.Scannable.process Scan.rotating_random
               (Scan.describe (Scan.ORandomScan s)) g2
             = (Scan.Ok (Scan.ORandomScan s), g2).
Proof.
  split; [reflexivity|].
  apply (@X9_seeded_random_scan_reproducible Scan.rotating_random
           (Qc_of_Z 0) (Qc_of_Z 4) 3 1%Z (λ seed, seed) 5%Z eq_refl).
  lia.
Defined.

(** ** [Scannable.process] on arbitrary descriptions *)

Section ProcessProperties.
Import Scan.
Context `{PyRandom}.

Lemma required_raises {A} (conv : pyval → result A)
    (args : gmap string pyval) (name : string) (e : exn) :
  (∀ v e', conv v = Raise e' → e' = TypeError) →
  required conv args name = Raise e → e = TypeError.
Proof.
  intros Hconv. unfold required.
  destruct (args !! name) as [v|]; [apply Hconv|congruence].
Qed.

Lemma optional_raises {A} (conv : pyval → result A) (dflt : A)
    (args : gmap string pyval) (name : string) (e : exn) :
  (∀ v e', conv v = Raise e' → e' = TypeError) →
  optional conv dflt args name = Raise e → e = TypeError.
Proof.
  intros Hconv. unfold optional.
  destruct (args !! name) as [v|]; [apply Hconv|congruence].
Qed.

(** Evaluates the binding of the next keyword argument: either it yields
    a value, or it raises [TypeError]. *)
Ltac step_arg :=
  match goal with
  | |- context [rbind (required ?c ?a ?n) _] =>
      let E := fresh "E" in
      destruct (required c a n) as [?|?] eqn:E;
      [|apply required_raises in E;
        [subst|by intros [] ? ?; simplify_eq/=]];
      cbn [rbind]
  | |- context [rbind (optional ?c ?d ?a ?n) _] =>
      let E := fresh "E" in
      destruct (optional c d a n) as [?|?] eqn:E;
      [|apply optional_raises in E;
        [subst|by intros [] ? ?; simplify_eq/=]];
      cbn [rbind]
  end.

Lemma construct_not_KeyError (cls : scan_cls) (args : gmap string pyval)
    (g : Rng) :
  (construct cls args g).1 ≠ Raise KeyError.
Proof.
  destruct cls; unfold construct; repeat step_arg; try done.
  unfold RandomScan.__init__.
  repeat case_match; by simplify_eq/=.
Qed.

(** X10: [process] raises [KeyError] exactly when the description has no
    [ty] entry, or its [ty] is hashable and not a key of [_ty_to_scan];
    the generator is then left alone. *)
Theorem X10_process_key_error (x : gmap string pyval) (g : Rng) :
  ((Scannable.process x g).1 = Raise KeyError ↔
   x !! "ty" = None ∨
   ∃ v, x !! "ty" = Some v ∧ (∀ l, v ≠ PList l) ∧
        ∀ ty, v = PStr ty → _ty_to_scan !! ty = None) ∧
  ((Scannable.process x g).1 = Raise KeyError →
   (Scannable.process x g).2 = g).
Proof.
  unfold Scannable.process.
  destruct (x !! "ty") as [[|ty|z|q|l]|] eqn:Hty; cbn.
  - split; [|done]. split; [|done]. intros _. right.
    eexists. split_and!; done.
  - destruct (_ty_to_scan !! ty) as [cls|] eqn:Hcls; cbn.
    + split; [|by intros ?%construct_not_KeyError].
      split; [by intros ?%construct_not_KeyError|].
      intros [?|(v & ? & _ & Hv)]; [done|]. simplify_eq.
      by rewrite (Hv ty eq_refl) in Hcls.
    + split; [|done]. split; [|done]. intros _. right.
      eexists. split_and!; [done..|]. intros ty' ?. by simplify_eq.
  - split; [|done]. split; [|done]. intros _. right.
    eexists. split_and!; done.
  - split; [|done]. split; [|done]. intros _. right.
    eexists. split_and!; done.
  - split; [|done]. split; [done|].
    intros [?|(v & ? & Hl & _)]; [done|]. simplify_eq. by destruct (Hl l).
  - split; [|done]. split; [|done]. by left.
Qed.

(** X11: when a parameter of the selected class other than
    [repetitions] and [seed] is missing from the description, [process]
    raises [TypeError] and leaves the generator alone. *)
Theorem X11_process_missing_parameter (x : gmap string pyval)
    (ty : string) (cls : scan_cls) (name : string) (g : Rng) :
  x !! "ty" = Some (PStr ty) → _ty_to_scan !! ty = Some cls →
  name ∈ drop 1 (getargspec_args cls) →
  name ≠ "repetitions" → name ≠ "seed" →
  x !! name = None →
  Scannable.process x g = (Raise TypeError, g).
Proof.
  intros Hty Hcls Hname Hrep Hseed Hx.
  destruct (process_class x ty cls g Hty Hcls) as (args & -> & Hargs).
  assert (Hmiss : args !! name = None).
  { rewrite Hargs. by case_decide. }
  destruct cls; cbn in Hname;
    repeat (apply elem_of_cons in Hname as [->|Hname]);
    try (by apply elem_of_nil in Hname); try done;
    unfold construct; repeat step_arg; try done;
    unfold required in *; rewrite Hmiss in *; done.
Qed.

(** X12: a [NoScan] description without [repetitions] is processed
    into a scan that yields its value once. *)
Theorem X12_process_noscan_default_repetitions (x : gmap string pyval)
    (v : Qc) (g : Rng) :
  x !! "ty" = Some (PStr "NoScan") →
  x !! "value" = Some (PNum v) →
  x !! "repetitions" = None →
  ∃ s, Scannable.process x g = (Ok s, g) ∧
       s = ONoScan (NoScan.mk v 1) ∧ iter s = [v].
Proof.
  intros Hty Hv Hrep.
  destruct (process_class x "NoScan" CNoScan g Hty eq_refl)
    as (args & -> & Hargs).
  pose proof (Hargs "value") as Hav.
  pose proof (Hargs "repetitions") as Har.
  cbn in Hav, Har.
  rewrite decide_True in Hav by (by left).
  rewrite decide_True in Har by (by right; left).
  unfold construct, required, optional. rewrite Hav, Har, Hv, Hrep. cbn.
  eexists. split_and!; reflexivity.
Qed.

(** X13: [process] reads the entry [ty] and the entries named after
    the parameters of the selected class, and no other entry: two
    descriptions that agree on these are processed alike. *)
Theorem X13_process_ignores_other_keys (x y : gmap string pyval)
    (ty : string) (cls : scan_cls) (g : Rng) :
  x !! "ty" = Some (PStr ty) → y !! "ty" = Some (PStr ty) →
  _ty_to_scan !! ty = Some cls →
  (∀ k, k ∈ drop 1 (getargspec_args cls) → x !! k = y !! k) →
  Scannable.process x g = Scannable.process y g.
Proof.
  intros Hx Hy Hcls Hagree.
  destruct (process_class x ty cls g Hx Hcls) as (ax & -> & Hax).
  destruct (process_class y ty cls g Hy Hcls) as (ay & -> & Hay).
  f_equal. apply map_eq. intros k. rewrite Hax, Hay.
  case_decide; [by apply Hagree|done].
Qed.

(** X14: a description determines the class of the described scan and
    the arguments it was constructed with. *)
Theorem X14_describe_injective (s1 s2 : ScanObject) :
  describe s1 = describe s2 →
  type_of s1 = type_of s2 ∧ params s1 = params s2.
Proof.
  intros Heq.
  assert (Hk : ∀ k, describe s1 !! k = describe s2 !! k)
    by (intros k; by rewrite Heq).
  pose proof (Hk "ty") as Hty. pose proof (Hk "value") as Hvalue.
  pose proof (Hk "repetitions") as Hrep. pose proof (Hk "start") as Hstart.
  pose proof (Hk "stop") as Hstop. pose proof (Hk "npoints") as Hnp.
  pose proof (Hk "seed") as Hseed. pose proof (Hk "sequence") as Hsq.
  clear Hk Heq.
  destruct s1 as [[v1 r1]|[a1 b1 n1]|[a1 b1 n1 sd1 sq1]|[l1]],
           s2 as [[v2 r2]|[a2 b2 n2]|[a2 b2 n2 sd2 sq2]|[l2]];
    unfold describe, NoScan.describe, LinearScan.describe,
      RandomScan.describe, ExplicitScan.describe in *;
    simplify_map_eq; try done.
  destruct sd1, sd2; by simplify_eq.
Qed.

End ProcessProperties.

Lemma X11_process_missing_parameter_witness :
  let x : gmap string Scan.pyval :=
    {[ "ty" := Scan.PStr "LinearScan"; "start" := Scan.PNum (Qc_of_Z 0);
       "npoints" := Scan.PInt 3 ]} in
  x !! "stop" = None ∧
  @Scan.Scannable.process Scan.reversing_random x tt
  = (Scan.Raise Scan.TypeError, tt).
Proof.
  cbn zeta. split; [reflexivity|].
  apply (@X11_process_missing_parameter Scan.reversing_random
           {[ "ty" := Scan.PStr "LinearScan";
              "start" := Scan.PNum (Qc_of_Z 0);
              "npoints" := Scan.PInt 3 ]}
           "LinearScan" Scan.CLinearScan "stop" tt);
    try reflexivity; try discriminate.
  cbn. by do 1 right; left.
Defined.

Lemma X12_process_noscan_witness :
  let x : gmap string Scan.pyval :=
    {[ "ty" := Scan.PStr "NoScan"; "value" := Scan.PNum (Qc_of_Z 5) ]} in
  x !! "repetitions" = None ∧
  ∃ s, @Scan.Scannable.process Scan.reversing_random x tt
       = (Scan.Ok s, tt) ∧
       s = Scan.ONoScan (Scan.NoScan.mk (Qc_of_Z 5) 1) ∧
       Scan.iter s = [Qc_of_Z 5].
Proof.
  cbn zeta. split; [reflexivity|].
  apply (@X12_process_noscan_default_repetitions Scan.reversing_random
           {[ "ty" := Scan.PStr "NoScan";
              "value" := Scan.PNum (Qc_of_Z 5) ]}
           (Qc_of_Z 5) tt); reflexivity.
Defined.

Lemma X13_process_ignores_witness :
  let x : gmap string Scan.pyval :=
    {[ "ty" := Scan.PStr "ExplicitScan";
       "sequence" := Scan.PList [Qc_of_Z 1; Qc_of_Z 2] ]} in
  let y : gmap string Scan.pyval := <["seed" := Scan.PInt 3]> x in
  x ≠ y ∧
  @Scan.Scannable.process Scan.reversing_random x tt
  = @Scan.Scannable.process Scan.reversing_random y tt.
Proof.
  cbn zeta. split.
  - intros Heq. apply (f_equal (.!! "seed")) in Heq. discriminate Heq.
  - apply (@X13_process_ignores_other_keys Scan.reversing_random
             {[ "ty" := Scan.PStr "ExplicitScan";
                "sequence" := Scan.PList [Qc_of_Z 1; Qc_of_Z 2] ]}
             (<["seed" := Scan.PInt 3]>
                {[ "ty" := Scan.PStr "ExplicitScan";
                   "sequence" := Scan.PList [Qc_of_Z 1; Qc_of_Z 2] ]})
             "ExplicitScan" Scan.CExplicitScan tt); try reflexivity.
    intros k Hk. cbn in Hk. apply list_elem_of_singleton in Hk as ->.
    reflexivity.
Defined.

Lemma X14_describe_injective_witness :
  let s := Scan.OLinearScan (Scan.LinearScan.mk (Qc_of_Z 0) (Qc_of_Z 1) 5) in
  Scan.describe s = Scan.describe s ∧
  Scan.type_of s = Scan.type_of s ∧ Scan.params s = Scan.params s.
Proof.
  cbn zeta. split; [reflexivity|].
  apply X14_describe_injective. reflexivity.
Defined.

(** ** [Scannable]: construction, default and description *)

Section ScannableProperties.
Import Scan.
Context `{PyRandom}.

Lemma scannable_init_eq (units : gmap string Scannable.module_attr)
    (dflt : Scannable.default_arg) (u : option string)
    (sc st mn mx : option Qc) (nd : option Z) (self : Scannable.t) :
  Scannable.__init__ units dflt u sc st mn mx nd = Ok self →
  ∃ s gs, self = Scannable.mk
                   match dflt with
                   | Scannable.NoDefault => None
                   | Scannable.OneDefault d => Some [d]
                   | Scannable.ListDefault l => Some l
                   end
                   (default "" u) s gs mn mx (default 2%Z nd) ∧
          match sc with
          | Some s' => s = Scannable.NumberAttr s'
          | None => if decide (default "" u = "")
                    then s = Scannable.NumberAttr (Qc_of_Z 1)
                    else units !! default "" u = Some s
          end ∧
          match st with
          | Some st' => gs = st'
          | None => ∃ q, s = Scannable.NumberAttr q ∧
                         gs = (q / Qc_of_Z 10)%Qc
          end.
Proof.
  unfold Scannable.__init__. intros Hinit.
  assert (Hstep : ∀ s,
    (try global_step_arg <-
       match st with
       | Some st' => Ok st'
       | None => match s with
                 | Scannable.NumberAttr q => Ok (q / Qc_of_Z 10)%Qc
                 | Scannable.ObjectAttr => Raise TypeError
                 end
       end;
     Ok (Scannable.mk
           match dflt with
           | Scannable.NoDefault => None
           | Scannable.OneDefault d => Some [d]
           | Scannable.ListDefault l => Some l
           end (default "" u) s global_step_arg mn mx (default 2%Z nd)))
    = Ok self →
    ∃ gs, self = Scannable.mk
                   match dflt with
                   | Scannable.NoDefault => None
                   | Scannable.OneDefault d => Some [d]
                   | Scannable.ListDefault l => Some l
                   end (default "" u) s gs mn mx (default 2%Z nd) ∧
          match st with
          | Some st' => gs = st'
          | None => ∃ q, s = Scannable.NumberAttr q ∧
                         gs = (q / Qc_of_Z 10)%Qc
          end).
  { intros s Hs. destruct st as [st'|].
    - cbn in Hs. simplify_eq. by eexists.
    - destruct s as [q|]; cbn in Hs; simplify_eq.
      eexists. split; [done|]. by exists q. }
  destruct sc as [s'|].
  - destruct (Hstep (Scannable.NumberAttr s') Hinit) as (gs & -> & Hgs).
    by eexists _, _.
  - destruct (decide (default "" u = "")) as [Hu|Hu].
    + destruct (Hstep (Scannable.NumberAttr (Qc_of_Z 1)) Hinit)
        as (gs & -> & Hgs).
      by eexists _, _.
    + destruct (units !! default "" u) as [s|] eqn:Hs; [|done].
      destruct (Hstep s Hinit) as (gs & -> & Hgs).
      by eexists _, _.
Qed.

(** X15: [default()] of a constructed [Scannable] returns the default
    scan it was given, or the first one of a list of defaults; it
    raises [DefaultMissing] when no default was given and [IndexError] when
    the list was empty. *)
Theorem X15_scannable_default_is_first
    (units : gmap string Scannable.module_attr)
    (dflt : Scannable.default_arg) (u : option string)
    (sc st mn mx : option Qc) (nd : option Z) (self : Scannable.t) :
  Scannable.__init__ units dflt u sc st mn mx nd = Ok self →
  Scannable.default self =
  match dflt with
  | Scannable.NoDefault => inl Scannable.DefaultMissing
  | Scannable.OneDefault d => inr d
  | Scannable.ListDefault l =>
      match head l with
      | Some d => inr d
      | None => inl Scannable.IndexError
      end
  end.
Proof.
  intros (s & gs & -> & _)%scannable_init_eq.
  unfold Scannable.default. cbn.
  destruct dflt as [|d|[|d l]]; reflexivity.
Qed.


(** X17: the description of a constructed [Scannable] keeps its type
    tag, has a [default] entry exactly when a default was given, and
    that entry lists the descriptions of the default scans in order:
    processing the one at a position is the constructor call
    with the arguments of the default scan at that position, and returns
    that scan when it is not a random scan. *)
Theorem X17_scannable_describe_defaults
    (units : gmap string Scannable.module_attr)
    (dflt : Scannable.default_arg) (u : option string)
    (sc st mn mx : option Qc) (nd : option Z) (self : Scannable.t) :
  Scannable.__init__ units dflt u sc st mn mx nd = Ok self →
  Scannable.describe self !! "ty"
  = Some (Scannable.DVal (PStr "Scannable")) ∧
  match dflt with
  | Scannable.NoDefault => Scannable.describe self !! "default" = None
  | _ =>
      let defaults := match dflt with
                      | Scannable.ListDefault l => l
                      | Scannable.OneDefault d => [d]
                      | Scannable.NoDefault => []
                      end in
      ∃ ds, Scannable.describe self !! "default"
            = Some (Scannable.DScans ds) ∧
            length ds = length defaults ∧
            ∀ i d, defaults !! i = Some d →
              ∃ x, ds !! i = Some x ∧
                   (∀ g, Scannable.process x g = new (params d) g) ∧
                   (type_of d ≠ CRandomScan →
                    ∀ g, Scannable.process x g = (Ok d, g))
  end.
Proof.
  intros (s & gs & -> & _)%scannable_init_eq.
  assert (Hround : ∀ (l : list ScanObject) i d, l !! i = Some d →
    ∃ x, (describe <$> l) !! i = Some x ∧
         (∀ g, Scannable.process x g = new (params d) g) ∧
         (type_of d ≠ CRandomScan →
          ∀ g, Scannable.process x g = (Ok d, g))).
  { intros l i d Hd. exists (describe d).
    rewrite list_lookup_fmap, Hd. split_and!; [done| |].
    - intros g. apply process_describe.
    - intros Hty g. rewrite process_describe.
      by destruct d as [[]|[]|?|[]]. }
  unfold Scannable.describe. cbn.
  split.
  - by destruct dflt; simplify_map_eq.
  - destruct dflt as [|d|l]; cbn zeta.
    + by simplify_map_eq.
    + exists (describe <$> [d]). split_and!.
      * by simplify_map_eq.
      * done.
      * apply Hround.
    + exists (describe <$> l). split_and!.
      * by simplify_map_eq.
      * by rewrite length_fmap.
      * apply Hround.
Qed.

End ScannableProperties.

Lemma X15_scannable_default_witness :
  let d1 := Scan.ONoScan (Scan.NoScan.mk (Qc_of_Z 5) 1) in
  let d2 := Scan.OLinearScan
              (Scan.LinearScan.mk (Qc_of_Z 0) (Qc_of_Z 1) 3) in
  ∃ self,
    Scan.Scannable.__init__ ∅ (Scan.Scannable.ListDefault [d1; d2])
      None None None None None None = Scan.Ok self ∧
    Scan.Scannable.default self = inr d1.
Proof.
  cbn zeta. eexists. split; [reflexivity|].
  exact (X15_scannable_default_is_first ∅
           (Scan.Scannable.ListDefault
              [Scan.ONoScan (Scan.NoScan.mk (Qc_of_Z 5) 1);
               Scan.OLinearScan
                 (Scan.LinearScan.mk (Qc_of_Z 0) (Qc_of_Z 1) 3)])
           None None None None None None _ eq_refl).
Defined.

Lemma X17_scannable_describe_witness :
  let d := Scan.OLinearScan
             (Scan.LinearScan.mk (Qc_of_Z 0) (Qc_of_Z 1) 3) in
  ∃ self,
    Scan.Scannable.__init__
      {[ "ms" := Scan.Scannable.NumberAttr (Qc_of_Z 1 / Qc_of_Z 1000)%Qc ]}
      (Scan.Scannable.OneDefault d) (Some "ms") None None None None None
    = Scan.Ok self ∧
    ∃ ds, Scan.Scannable.describe self !! "default"
          = Some (Scan.Scannable.DScans ds) ∧
          length ds = 1 ∧
          ∀ i d', [d] !! i = Some d' →
            ∃ x, ds !! i = Some x ∧
                 (∀ g, @Scan.Scannable.process Scan.reversing_random x g
                       = @Scan.new Scan.reversing_random
                           (Scan.params d') g) ∧
                 (Scan.type_of d' ≠ Scan.CRandomScan →
                  ∀ g, @Scan.Scannable.process Scan.reversing_random x g
                       = (Scan.Ok d', g)).
Proof.
  cbn zeta. eexists. split; [reflexivity|].
  exact (proj2 (@X17_scannable_describe_defaults Scan.reversing_random
                  {[ "ms" := Scan.Scannable.NumberAttr
                                (Qc_of_Z 1 / Qc_of_Z 1000)%Qc ]}
                  (Scan.Scannable.OneDefault
                     (Scan.OLinearScan
                        (Scan.LinearScan.mk (Qc_of_Z 0) (Qc_of_Z 1) 3)))
                  (Some "ms") None None None None None _ eq_refl)).
Defined.

(** ** More on [MultiScanManager] *)

Section MultiScanEdgeCases.
Import Scan.
Import MultiScanManager.

Lemma product_empty_pool {A} (pools : list (list A)) :
  [] ∈ pools → product pools = [].
Proof.
  induction pools as [|p r IH]; intros Hin.
  - by apply elem_of_nil in Hin.
  - apply elem_of_cons in Hin as [<-|Hin]; [done|].
    cbn. rewrite (IH Hin). by induction p.
Qed.

Lemma product_complete {A} (pools : list (list A)) (t : list A) :
  Forall2 (λ v pool, v ∈ pool) t pools → t ∈ product pools.
Proof.
  induction 1 as [|v pool t pools Hv _ IH]; cbn.
  - by apply list_elem_of_singleton.
  - apply list_elem_of_bind. exists v. split; [|done].
    apply list_elem_of_fmap. by exists t.
Qed.

(** A later pair with the same key replaces the value: the dictionary
    binds a name to the value at its last position. *)
Lemma dict_of_lookup_last (names : list string) (values : list Qc)
    (j : nat) (k : string) (v : Qc) :
  names !! j = Some k → values !! j = Some v →
  (∀ j', j < j' → names !! j' ≠ Some k) →
  dict_of names values !! k = Some v.
Proof.
  intros Hk Hv Hlast. unfold dict_of.
  assert (Hj : zip names values !! j = Some (k, v)).
  { apply lookup_zip_with_Some. by exists k, v. }
  assert (Hl : ∀ j' v', j < j' → zip names values !! j' ≠ Some (k, v')).
  { intros j' v' Hlt Hz.
    apply lookup_zip_with_Some in Hz as (k' & v'' & ? & Hk' & _).
    simplify_eq. by apply (Hlast j'). }
  clear Hk Hv Hlast. revert j Hj Hl.
  generalize (zip names values). intros l.
  induction l as [|[k' v'] l IH] using rev_ind; intros j Hj Hl; [done|].
  rewrite foldl_app. cbn.
  destruct (decide (j = length l)) as [->|Hne].
  - rewrite lookup_app_r, Nat.sub_diag in Hj by lia.
    cbn in Hj. simplify_eq. by rewrite lookup_insert_eq.
  - assert (j < length l) as Hlt.
    { apply lookup_lt_Some in Hj. rewrite length_app in Hj. cbn in Hj.
      lia. }
    rewrite lookup_app_l in Hj by done.
    assert (k' ≠ k) as Hkk.
    { intros ->. apply (Hl (length l) v' Hlt).
      rewrite lookup_app_r, Nat.sub_diag by lia. done. }
    rewrite lookup_insert_ne by done.
    apply (IH j Hj). intros j' v'' Hjj' Hz.
    apply (Hl j' v'' Hjj'). apply lookup_app_l_Some. done.
Qed.

(** The constructor of a scan point with a reserved keyword raises;
    with none it stores every keyword and collects the keys. *)
Lemma scan_point_init_cases (kwargs : gmap string Qc) :
  (ScanPoint.__init__ kwargs
   = Ok (<["attr" := ASet (dom kwargs)]> (AVal <$> kwargs)) ∧
   ∀ k, k ∈ dom kwargs → k ∉ reserved) ∨
  ((∃ e, ScanPoint.__init__ kwargs = Raise e) ∧
   ∃ k, k ∈ dom kwargs ∧ k ∈ reserved).
Proof.
  unfold ScanPoint.__init__.
  destruct (decide ("self" ∈ dom kwargs)) as [Hself|Hself].
  { right. split; [by eexists|]. exists "self". split; [done|].
    unfold reserved. set_solver. }
  revert Hself.
  apply (map_fold_weak_ind
    (λ r (m : gmap string Qc),
       "self" ∉ dom m →
       (r = Ok (<["attr" := ASet (dom m)]> (AVal <$> m)) ∧
        ∀ k, k ∈ dom m → k ∉ reserved) ∨
       ((∃ e, r = Raise e) ∧ ∃ k, k ∈ dom m ∧ k ∈ reserved))).
  - intros _. left. rewrite dom_empty_L, fmap_empty.
    split; [done|]. set_solver.
  - intros k v m r Hk IH Hself.
    rewrite dom_insert_L in Hself |- *.
    destruct IH as [[-> Hres]|[[e ->] (k' & Hk' & Hres)]]; [set_solver| |].
    2:{ right. split; [by exists e|]. exists k'. set_solver. }
    destruct (decide (k ∈ reserved)) as [Hkres|Hkres].
    + right. split; [|exists k; set_solver].
      unfold ScanPoint.bind_attr, ScanPoint.setattr. cbn.
      repeat case_decide; cbn; [by eexists..|].
      assert (k = "attr") as -> by (unfold reserved in Hkres; set_solver).
      rewrite lookup_insert_eq. by eexists.
    + left. split; [|set_solver].
      assert (k ≠ "attr" ∧ k ≠ "__class__" ∧ k ≠ "__dict__"
              ∧ k ≠ "__weakref__") as (Hne & Hc & Hd & Hw).
      { unfold reserved in Hkres. set_solver. }
      cbn. unfold ScanPoint.setattr.
      rewrite decide_False by (intros [?|?]; done).
      rewrite decide_False by done. cbn.
      rewrite lookup_insert_ne, lookup_insert_eq by done.
      f_equal. rewrite fmap_insert.
      apply map_eq. intros i.
      destruct (decide (i = "attr")) as [->|Hi]; [by simplify_map_eq|].
      destruct (decide (i = k)) as [->|Hik]; by simplify_map_eq.
Qed.

Lemma yield_points_no_reserved (names : list string)
    (tuples : list (list Qc)) :
  (∀ k, k ∈ names → k ∉ reserved) →
  (∀ t, t ∈ tuples → length t = length names) →
  yield_points names tuples
  = ((λ t, <["attr" := ASet (list_to_set names)]>
             (AVal <$> dict_of names t)) <$> tuples, None).
Proof.
  intros Hres. induction tuples as [|t ts IH]; intros Hlen; [done|].
  assert (length names = length t) as Ht
    by (symmetry; apply Hlen; by left).
  cbn. destruct (scan_point_init_cases (dict_of names t))
    as [[-> _]|[_ (k & Hk & Hkres)]].
  - rewrite IH by (intros t' Ht'; apply Hlen; by right).
    by rewrite dict_of_dom.
  - rewrite dict_of_dom in Hk by done.
    apply elem_of_list_to_set in Hk. by destruct (Hres k Hk).
Qed.

Lemma yield_points_reserved (names : list string) (t : list Qc)
    (ts : list (list Qc)) (k : string) :
  k ∈ names → k ∈ reserved → length t = length names →
  ∃ e, yield_points names (t :: ts) = ([], Some e) ∧
       ScanPoint.__init__ (dict_of names t) = Raise e.
Proof.
  intros Hk Hkres Hlen. cbn.
  destruct (scan_point_init_cases (dict_of names t))
    as [[_ Hres]|[[e He] _]].
  - destruct (Hres k); [|done].
    rewrite dict_of_dom by done. by apply elem_of_list_to_set.
  - rewrite He. by exists e.
Qed.

(** A scan that yields a value has no negative length. *)
Lemma iter_nonempty_len (s : ScanObject) :
  iter s ≠ [] → (0 ≤ len s)%Z.
Proof.
  destruct s as [[v r]|[a b n]|[a b n sd sq]|[l]]; cbn.
  - unfold NoScan.__iter__, NoScan._gen, NoScan.__len__, range. cbn.
    intros Hne. destruct (decide (0 ≤ r)%Z) as [|Hneg]; [done|].
    destruct Hne. by rewrite Z2Nat.nonpos by lia.
  - unfold LinearScan.__iter__, LinearScan._gen, LinearScan.__len__, range.
    cbn. intros Hne. destruct (decide (0 ≤ n)%Z) as [|Hneg]; [done|].
    destruct Hne. rewrite !decide_False by lia.
    by rewrite Z2Nat.nonpos by lia.
  - intros _. unfold RandomScan.__len__. lia.
  - intros _. unfold ExplicitScan.__len__. lia.
Qed.

(** X18: when one of the scans has a negative length, iterating the
    manager raises [ValueError] and yields no point; otherwise, when one
    of the scans yields no value, it yields no point and raises nothing;
    both whatever the names are. *)
Theorem X18_multi_scan_empty_scan (args : list (string * ScanObject)) :
  ((∃ a, a ∈ args ∧ (len a.2 < 0)%Z) →
   __iter__ (__init__ args) = ([], Some ValueError)) ∧
  ((∀ a, a ∈ args → (0 ≤ len a.2)%Z) →
   (∃ a, a ∈ args ∧ iter a.2 = []) →
   __iter__ (__init__ args) = ([], None)).
Proof.
  unfold __iter__, _gen, __init__. cbn [names scan_objects]. split.
  - intros Hneg. by rewrite negative_len_true.
  - intros Hlen (a & Ha & Hempty). rewrite negative_len_false by done.
    rewrite product_empty_pool; [done|].
    rewrite <- Hempty, <- list_fmap_compose.
    apply list_elem_of_fmap. by exists a.
Qed.

(** X19: when every scan yields a value, iterating the manager ends
    without an exception exactly when no registered name is reserved;
    otherwise the exception is raised for the first point, so no point
    is yielded, and it is [TypeError] when [self] is among the names. *)
Theorem X19_multi_scan_reserved_name_raises
    (args : list (string * ScanObject)) :
  (∀ a, a ∈ args → iter a.2 ≠ []) →
  ((__iter__ (__init__ args)).2 = None
   ↔ ∀ k, k ∈ fst <$> args → k ∉ reserved) ∧
  ((__iter__ (__init__ args)).2 ≠ None →
   (__iter__ (__init__ args)).1 = []) ∧
  ("self" ∈ fst <$> args →
   (__iter__ (__init__ args)).2 = Some TypeError).
Proof.
  intros Hne. unfold __iter__, _gen, __init__. cbn [names scan_objects].
  rewrite negative_len_false
    by (intros a Ha; by apply iter_nonempty_len, Hne).
  set (nms := fst <$> args). set (pools := iter <$> (snd <$> args)).
  assert (Hlen : ∀ t, t ∈ product pools → length t = length nms).
  { intros t Ht%product_tuple_length.
    unfold pools, nms in *. by rewrite !length_fmap in *. }
  assert (Hpos : product pools ≠ []).
  { intros Hnil. apply (f_equal length) in Hnil.
    rewrite product_length in Hnil. cbn in Hnil.
    assert (Hall : Forall (λ n, n ≠ 0) (length <$> pools)).
    { apply Forall_fmap, Forall_fmap, Forall_fmap.
      apply Forall_forall. intros a Ha. cbn.
      intros Hz%length_zero_iff_nil. by apply (Hne a). }
    clear -Hnil Hall. induction Hall as [|n l Hn _ IH]; cbn in Hnil; [lia|].
    apply IH. nia. }
  destruct (product pools) as [|t ts] eqn:Hprod; [done|].
  assert (Ht : length t = length nms) by (apply Hlen; by left).
  assert (Hcases :
    ((∀ k, k ∈ nms → k ∉ reserved) ∧
     (yield_points nms (t :: ts)).2 = None) ∨
    ((∃ k, k ∈ nms ∧ k ∈ reserved) ∧
     ∃ e, yield_points nms (t :: ts) = ([], Some e) ∧
          ScanPoint.__init__ (dict_of nms t) = Raise e)).
  { destruct (scan_point_init_cases (dict_of nms t))
      as [[_ Hres]|[_ (k & Hk & Hkres)]];
      rewrite dict_of_dom in * by done.
    - left.
      assert (Hres' : ∀ k, k ∈ nms → k ∉ reserved).
      { intros k Hk. apply Hres. by apply elem_of_list_to_set. }
      split; [done|]. by rewrite yield_points_no_reserved.
    - right. apply elem_of_list_to_set in Hk.
      split; [by exists k|].
      by apply (yield_points_reserved nms t ts k). }
  split_and!.
  - destruct Hcases as [[Hres Hnone]|[(k & Hk & Hkres) (e & He & _)]].
    + done.
    + rewrite He. cbn. split; [done|]. intros Hres. by destruct (Hres k).
  - destruct Hcases as [[_ Hnone]|[_ (e & He & _)]]; [done|].
    by rewrite He.
  - intros Hself.
    assert (Hinit : ScanPoint.__init__ (dict_of nms t) = Raise TypeError).
    { unfold ScanPoint.__init__. rewrite decide_True; [done|].
      rewrite dict_of_dom by done. by apply elem_of_list_to_set. }
    cbn. by rewrite Hinit.
Qed.

(** X20: when no registered name is reserved and no scan has a negative
    length, a name registered more than once is an attribute bound to
    the value of the last scan registered under it: iterating yields one
    point per tuple of the product, and in the point of a tuple, a name
    at a position after which it does not occur again is bound to the
    value at that position. *)
Theorem X20_multi_scan_last_name_wins (args : list (string * ScanObject)) :
  (∀ k, k ∈ fst <$> args → k ∉ reserved) →
  (∀ a, a ∈ args → (0 ≤ len a.2)%Z) →
  ∃ points,
    __iter__ (__init__ args) = (points, None) ∧
    length points = length (product (iter <$> (snd <$> args))) ∧
    ∀ idx p t, points !! idx = Some p →
      product (iter <$> (snd <$> args)) !! idx = Some t →
      ∀ j name v, (fst <$> args) !! j = Some name → t !! j = Some v →
        (∀ j', j < j' → (fst <$> args) !! j' ≠ Some name) →
        p !! name = Some (AVal v).
Proof.
  intros Hres Hnonneg.
  unfold __iter__, _gen, __init__. cbn [names scan_objects].
  rewrite negative_len_false by done.
  set (nms := fst <$> args). set (pools := iter <$> (snd <$> args)).
  rewrite yield_points_no_reserved; [|done|].
  2:{ intros t Ht%product_tuple_length.
      unfold pools, nms in *. by rewrite !length_fmap in *. }
  eexists. split; [reflexivity|]. split; [by rewrite length_fmap|].
  intros idx p t Hp Ht j name v Hname Hv Hlast.
  rewrite list_lookup_fmap, Ht in Hp. cbn in Hp. simplify_eq.
  assert (name ≠ "attr") as Hattr.
  { intros ->. apply (Hres "attr").
    - by eapply list_elem_of_lookup_2.
    - unfold reserved. set_solver. }
  rewrite lookup_insert_ne, lookup_fmap by done.
  by rewrite (dict_of_lookup_last nms t j name v).
Qed.

(** X21: with pairwise different names, none reserved, every choice of
    one value from each scan is a point of the iteration: some yielded
    point binds each name to the chosen value of its scan. *)
Theorem X21_multi_scan_every_combination
    (args : list (string * ScanObject)) (vs : list Qc) :
  NoDup (fst <$> args) →
  (∀ k, k ∈ fst <$> args → k ∉ reserved) →
  Forall2 (λ v a, v ∈ iter a.2) vs args →
  ∃ p, p ∈ (__iter__ (__init__ args)).1 ∧
       ∀ j name v, (fst <$> args) !! j = Some name → vs !! j = Some v →
                   p !! name = Some (AVal v).
Proof.
  intros Hnd Hres Hvs. unfold __iter__, _gen, __init__.
  cbn [names scan_objects].
  rewrite negative_len_false.
  2:{ intros a Ha. apply iter_nonempty_len.
      apply list_elem_of_lookup in Ha as [i Hi].
      destruct (Forall2_lookup_r _ _ _ _ _ Hvs Hi) as (v & _ & Hv).
      intros Hnil. rewrite Hnil in Hv. by apply elem_of_nil in Hv. }
  set (nms := fst <$> args). set (pools := iter <$> (snd <$> args)).
  assert (Hin : vs ∈ product pools).
  { apply product_complete. unfold pools.
    rewrite <- list_fmap_compose. by apply Forall2_fmap_r. }
  assert (Hlen : length vs = length nms).
  { apply Forall2_length in Hvs. unfold nms. by rewrite length_fmap. }
  rewrite yield_points_no_reserved; [|done|].
  2:{ intros t Ht%product_tuple_length.
      unfold pools, nms in *. by rewrite !length_fmap in *. }
  cbn [fst]. eexists. split.
  { apply list_elem_of_fmap. by exists vs. }
  intros j name v Hname Hv.
  assert (name ≠ "attr") as Hattr.
  { intros ->. apply (Hres "attr").
    - by eapply list_elem_of_lookup_2.
    - unfold reserved. set_solver. }
  rewrite lookup_insert_ne, lookup_fmap by done.
  by rewrite (dict_of_lookup nms vs j name v).
Qed.

End MultiScanEdgeCases.

Lemma X18_multi_scan_witness :
  let args :=
    [ ("attr", Scan.ONoScan (Scan.NoScan.mk (Qc_of_Z 1) 0));
      ("x", Scan.OExplicitScan
              (Scan.ExplicitScan.mk [Qc_of_Z 5; Qc_of_Z 6])) ] in
  let args' :=
    [ ("x", Scan.OLinearScan
              (Scan.LinearScan.mk (Qc_of_Z 0) (Qc_of_Z 1) (-1))) ] in
  (∀ a, a ∈ args → (0 ≤ Scan.len a.2)%Z) ∧
  (∃ a, a ∈ args ∧ Scan.iter a.2 = []) ∧
  Scan.MultiScanManager.__iter__ (Scan.MultiScanManager.__init__ args)
  = ([], None) ∧
  (∃ a, a ∈ args' ∧ (Scan.len a.2 < 0)%Z) ∧
  Scan.MultiScanManager.__iter__ (Scan.MultiScanManager.__init__ args')
  = ([], Some Scan.ValueError).
Proof.
  cbn zeta.
  assert (Hlen : ∀ a, a ∈
    [ ("attr", Scan.ONoScan (Scan.NoScan.mk (Qc_of_Z 1) 0));
      ("x", Scan.OExplicitScan
              (Scan.ExplicitScan.mk [Qc_of_Z 5; Qc_of_Z 6])) ]
    → (0 ≤ Scan.len a.2)%Z).
  { intros a Ha.
    apply elem_of_cons in Ha as [->|Ha];
      [|apply list_elem_of_singleton in Ha as ->]; by vm_compute. }
  assert (Hempty : ∃ a, a ∈
    [ ("attr", Scan.ONoScan (Scan.NoScan.mk (Qc_of_Z 1) 0));
      ("x", Scan.OExplicitScan
              (Scan.ExplicitScan.mk [Qc_of_Z 5; Qc_of_Z 6])) ]
    ∧ Scan.iter a.2 = []).
  { eexists. split; [by left|reflexivity]. }
  assert (Hneg : ∃ a, a ∈
    [ ("x", Scan.OLinearScan
              (Scan.LinearScan.mk (Qc_of_Z 0) (Qc_of_Z 1) (-1))) ]
    ∧ (Scan.len a.2 < 0)%Z).
  { eexists. split; [by left|reflexivity]. }
  split; [exact Hlen|]. split; [exact Hempty|].
  split; [exact (proj2 (X18_multi_scan_empty_scan _) Hlen Hempty)|].
  split; [exact Hneg|].
  exact (proj1 (X18_multi_scan_empty_scan _) Hneg).
Defined.

Lemma X19_multi_scan_witness :
  let args :=
    [ ("x", Scan.OExplicitScan (Scan.ExplicitScan.mk [Qc_of_Z 5]));
      ("self", Scan.OExplicitScan (Scan.ExplicitScan.mk [Qc_of_Z 1])) ] in
  (∀ a, a ∈ args → Scan.iter a.2 ≠ []) ∧
  "self" ∈ fst <$> args ∧
  (Scan.MultiScanManager.__iter__ (Scan.MultiScanManager.__init__ args)).2
  = Some Scan.TypeError.
Proof.
  cbn zeta.
  assert (Hne : ∀ a, a ∈
    [ ("x", Scan.OExplicitScan (Scan.ExplicitScan.mk [Qc_of_Z 5]));
      ("self", Scan.OExplicitScan (Scan.ExplicitScan.mk [Qc_of_Z 1])) ]
    → Scan.iter a.2 ≠ []).
  { intros a Ha.
    apply elem_of_cons in Ha as [->|Ha];
      [|apply list_elem_of_singleton in Ha as ->]; discriminate. }
  assert (Hself : "self" ∈ fst <$>
    [ ("x", Scan.OExplicitScan (Scan.ExplicitScan.mk [Qc_of_Z 5]));
      ("self", Scan.OExplicitScan (Scan.ExplicitScan.mk [Qc_of_Z 1])) ]).
  { cbn. right. left. }
  split; [exact Hne|]. split; [exact Hself|].
  exact (proj2 (proj2 (X19_multi_scan_reserved_name_raises _ Hne)) Hself).
Defined.

Lemma X20_multi_scan_witness :
  let args :=
    [ ("x", Scan.OExplicitScan (Scan.ExplicitScan.mk [Qc_of_Z 1]));
      ("x", Scan.OExplicitScan (Scan.ExplicitScan.mk [Qc_of_Z 2])) ] in
  (∀ k, k ∈ fst <$> args → k ∉ Scan.MultiScanManager.reserved) ∧
  (∀ a, a ∈ args → (0 ≤ Scan.len a.2)%Z) ∧
  ∃ points,
    Scan.MultiScanManager.__iter__ (Scan.MultiScanManager.__init__ args)
    = (points, None) ∧
    length points
    = length (Scan.product (Scan.iter <$> (snd <$> args))) ∧
    ∀ idx p t, points !! idx = Some p →
      Scan.product (Scan.iter <$> (snd <$> args)) !! idx = Some t →
      ∀ j name v, (fst <$> args) !! j = Some name → t !! j = Some v →
        (∀ j', j < j' → (fst <$> args) !! j' ≠ Some name) →
        p !! name = Some (Scan.AVal v).
Proof.
  cbn zeta.
  assert (Hres : ∀ k, k ∈ fst <$>
    [ ("x", Scan.OExplicitScan (Scan.ExplicitScan.mk [Qc_of_Z 1]));
      ("x", Scan.OExplicitScan (Scan.ExplicitScan.mk [Qc_of_Z 2])) ]
    → k ∉ Scan.MultiScanManager.reserved).
  { intros k Hk. cbn in Hk.
    apply elem_of_cons in Hk as [->|Hk];
      [|apply list_elem_of_singleton in Hk as ->];
      apply (bool_decide_unpack _); vm_compute; exact I. }
  assert (Hlen : ∀ a, a ∈
    [ ("x", Scan.OExplicitScan (Scan.ExplicitScan.mk [Qc_of_Z 1]));
      ("x", Scan.OExplicitScan (Scan.ExplicitScan.mk [Qc_of_Z 2])) ]
    → (0 ≤ Scan.len a.2)%Z).
  { intros a Ha.
    apply elem_of_cons in Ha as [->|Ha];
      [|apply list_elem_of_singleton in Ha as ->]; by vm_compute. }
  split; [exact Hres|]. split; [exact Hlen|].
  exact (X20_multi_scan_last_name_wins _ Hres Hlen).
Defined.

Lemma X21_multi_scan_witness :
  let args :=
    [ ("x", Scan.OExplicitScan
              (Scan.ExplicitScan.mk [Qc_of_Z 1; Qc_of_Z 2]));
      ("y", Scan.OExplicitScan
              (Scan.ExplicitScan.mk [Qc_of_Z 5; Qc_of_Z 6; Qc_of_Z 7])) ] in
  let vs := [Qc_of_Z 2; Qc_of_Z 6] in
  NoDup (fst <$> args) ∧
  (∀ k, k ∈ fst <$> args → k ∉ Scan.MultiScanManager.reserved) ∧
  Forall2 (λ v a, v ∈ Scan.iter a.2) vs args ∧
  ∃ p, p ∈ (Scan.MultiScanManager.__iter__
              (Scan.MultiScanManager.__init__ args)).1 ∧
       ∀ j name v, (fst <$> args) !! j = Some name → vs !! j = Some v →
                   p !! name = Some (Scan.AVal v).
Proof.
  cbn zeta.
  assert (Hnd : NoDup (fst <$>
    [ ("x", Scan.OExplicitScan
              (Scan.ExplicitScan.mk [Qc_of_Z 1; Qc_of_Z 2]));
      ("y", Scan.OExplicitScan
              (Scan.ExplicitScan.mk [Qc_of_Z 5; Qc_of_Z 6; Qc_of_Z 7])) ])).
  { apply (bool_decide_unpack _). vm_compute. exact I. }
  assert (Hres : ∀ k, k ∈ fst <$>
    [ ("x", Scan.OExplicitScan
              (Scan.ExplicitScan.mk [Qc_of_Z 1; Qc_of_Z 2]));
      ("y", Scan.OExplicitScan
              (Scan.ExplicitScan.mk [Qc_of_Z 5; Qc_of_Z 6; Qc_of_Z 7])) ]
    → k ∉ Scan.MultiScanManager.reserved).
  { intros k Hk. cbn in Hk.
    apply elem_of_cons in Hk as [->|Hk];
      [|apply list_elem_of_singleton in Hk as ->];
      apply (bool_decide_unpack _); vm_compute; exact I. }
  assert (Hvs : Forall2 (λ v a, v ∈ Scan.iter a.2)
    [Qc_of_Z 2; Qc_of_Z 6]
    [ ("x", Scan.OExplicitScan
              (Scan.ExplicitScan.mk [Qc_of_Z 1; Qc_of_Z 2]));
      ("y", Scan.OExplicitScan
              (Scan.ExplicitScan.mk [Qc_of_Z 5; Qc_of_Z 6; Qc_of_Z 7])) ]).
  { repeat constructor. }
  split; [exact Hnd|]. split; [exact Hres|]. split; [exact Hvs|].
  exact (X21_multi_scan_every_combination _ _ Hnd Hres Hvs).
Defined.

(** ** Drivers in the synchronizer and in the satellite *)

Section SynchronizerDrivers.
Import Migen Drtio.
Import GenericRXSynchronizer.

Lemma fresh_like_uid n l : uid <$> fresh_like n l = seq n (length l).
Proof.
  revert n. induction l as [|s l IH]; intros n; [done|].
  rewrite fresh_like_cons. cbn. by rewrite IH.
Qed.

Lemma fresh_like_lookup n l i o :
  fresh_like n l !! i = Some o → ∃ s, l !! i = Some s ∧ o = like (n + i) s.
Proof.
  revert n i. induction l as [|s l IH]; intros n i Ho; [done|].
  rewrite fresh_like_cons in Ho. destruct i as [|i]; cbn in Ho.
  - simplify_eq. exists s. by rewrite Nat.add_0_r.
  - apply IH in Ho as (s' & Hs' & ->). exists s'. split; [done|].
    f_equal. lia.
Qed.

Lemma elaborate_driven l n :
  driven_signals (comb (elaborate l n).1.2)
  = din (buffer_of n l) :: fresh_like n l.
Proof.
  rewrite elaborate_eq. cbn. by rewrite app_nil_r.
Qed.

(** X22: when the registered signals exist before the synchronizer is
    elaborated, everything the finalized synchronizer drives is a signal
    created during its elaboration, no signal is driven twice, and no
    registered signal is driven; each synchronized signal records its
    original in [related] and has its signedness. *)
Theorem X22_synchronizer_drives_fresh_signals_once (l : list Signal)
    (n : nat) :
  Forall (λ s, uid s < n) l →
  let g := (elaborate l n).1.2 in
  NoDup (uid <$> driven_signals (comb g)) ∧
  (∀ s, s ∈ driven_signals (comb g) → n ≤ uid s < (elaborate l n).2) ∧
  (∀ s, s ∈ l → s ∉ driven_signals (comb g)) ∧
  (∀ i s o, signals g !! i = Some (s, o) →
      o ∈ driven_signals (comb g) ∧
      related o = Some (uid s) ∧ signed o = signed s).
Proof.
  intros Hold. cbn zeta. rewrite elaborate_driven.
  assert (Hrange : ∀ s, s ∈ din (buffer_of n l) :: fresh_like n l →
                        n ≤ uid s < S (S (n + length l))).
  { intros s [->|Hs]%elem_of_cons; [cbn; lia|].
    apply (list_elem_of_fmap_2 uid) in Hs.
    rewrite fresh_like_uid in Hs. apply elem_of_seq in Hs. lia. }
  split_and!.
  - rewrite fmap_cons, fresh_like_uid. apply NoDup_cons. split.
    + cbn. rewrite elem_of_seq. lia.
    + apply NoDup_seq.
  - intros s Hs. rewrite elaborate_eq. cbn [snd]. by apply Hrange.
  - intros s Hs Hdriven. apply Hrange in Hdriven.
    rewrite Forall_forall in Hold. apply Hold in Hs. lia.
  - intros i s o Hso. rewrite elaborate_eq in Hso. cbn [fst snd signals] in Hso.
    apply lookup_zip_with_Some in Hso as (s' & o' & ? & Hs & Ho).
    simplify_eq. split.
    + right. by eapply list_elem_of_lookup_2.
    + apply fresh_like_lookup in Ho as (s'' & Hs'' & ->).
      by simplify_eq.
Qed.

(** X23: a signal registered after finalization is recorded in
    [signals] and nothing else happens: no statement and no buffer is
    added, the buffer keeps the width of the signals registered before,
    and the signal returned to the caller has no driver. *)
Theorem X23_resync_after_finalize_is_not_connected (l : list Signal)
    (n : nat) (s : Signal) (k : nat) :
  (elaborate l n).2 ≤ k →
  let g := (elaborate l n).1.2 in
  let o := (resync g s k).1.1 in
  let g' := (resync g s k).1.2 in
  signals g' = signals g ++ [(s, o)] ∧
  comb g' = comb g ∧
  submodules g' = submodules g ∧
  (∀ eb, eb ∈ submodules g' → eb_width eb = sum_list (nbits <$> l)) ∧
  (o ∉ driven_signals (comb g')) ∧
  drivers (comb g') (VSignal o) = [].
Proof.
  intros Hk. cbn zeta. rewrite resync_eq. cbn [fst snd comb signals submodules].
  rewrite elaborate_driven.
  rewrite elaborate_eq in Hk |- *. cbn [fst snd comb submodules] in Hk |- *.
  split_and!; try reflexivity.
  - intros eb ->%list_elem_of_singleton. reflexivity.
  - intros [Heq|Hin]%elem_of_cons.
    + apply (f_equal uid) in Heq. cbn in Heq. lia.
    + apply (list_elem_of_fmap_2 uid) in Hin.
      rewrite fresh_like_uid in Hin. apply elem_of_seq in Hin.
      cbn in Hin. lia.
  - unfold drivers. cbn.
    rewrite decide_False;
      [|intros Heq; apply (f_equal (λ v, match v with
                                         | VSignal x => uid x
                                         | _ => 0
                                         end)) in Heq; cbn in Heq; lia].
    by rewrite decide_False.
Qed.

End SynchronizerDrivers.

Lemma X22_synchronizer_witness :
  let l := [Migen.mkSignal 0 2 false None; Migen.mkSignal 1 3 true None] in
  Forall (λ s, Migen.uid s < 2) l ∧
  NoDup (Migen.uid <$> Migen.driven_signals
           (Drtio.GenericRXSynchronizer.comb
              (Drtio.GenericRXSynchronizer.elaborate l 2).1.2)).
Proof.
  cbn zeta.
  assert (Hold : Forall (λ s, Migen.uid s < 2)
            [Migen.mkSignal 0 2 false None; Migen.mkSignal 1 3 true None]).
  { repeat constructor; cbn; lia. }
  split; [exact Hold|].
  exact (proj1 (X22_synchronizer_drives_fresh_signals_once _ 2 Hold)).
Defined.

Lemma X23_resync_after_finalize_witness :
  let l := [Migen.mkSignal 0 2 false None; Migen.mkSignal 1 3 true None] in
  let s := Migen.mkSignal 9 4 false None in
  let g := (Drtio.GenericRXSynchronizer.elaborate l 2).1.2 in
  let o := (Drtio.GenericRXSynchronizer.resync g s 10).1.1 in
  let g' := (Drtio.GenericRXSynchronizer.resync g s 10).1.2 in
  (Drtio.GenericRXSynchronizer.elaborate l 2).2 ≤ 10 ∧
  (o ∉ Migen.driven_signals (Drtio.GenericRXSynchronizer.comb g')) ∧
  Migen.drivers (Drtio.GenericRXSynchronizer.comb g') (Migen.VSignal o) = [].
Proof.
  cbn zeta.
  assert (Hk : (Drtio.GenericRXSynchronizer.elaborate
                  [Migen.mkSignal 0 2 false None;
                   Migen.mkSignal 1 3 true None] 2).2 ≤ 10)
    by (cbn; lia).
  split; [exact Hk|].
  exact (proj2 (proj2 (proj2 (proj2
           (X23_resync_after_finalize_is_not_connected
              [Migen.mkSignal 0 2 false None; Migen.mkSignal 1 3 true None]
              2 (Migen.mkSignal 9 4 false None) 10 Hk))))).
Defined.

Section SatelliteDrivers.
Import Migen Drtio.
Import DRTIOSatellite.

Context {S Channel : Type}.
Variable supplied_resync : S → Signal → nat → Signal * S * nat.
Variable link_width : nat.

(** Decides a membership in a list of signals whose identities are
    known. *)
Ltac absurd_member H :=
  repeat (apply elem_of_cons in H as [H|H];
          [apply (f_equal uid) in H; cbn in H; lia|]);
  by apply elem_of_nil in H.

(** X24: the statements written by the constructor of a satellite with
    the default synchronizer, built around a transceiver that exists
    before, and by the synchronizer once it is finalized.  They assign
    to the link layer's [rx_ready] (from the transceiver's), to the
    clock and reset of [rio] and of [rio_phy], to the buffer input and
    to the seven receive ports handed to the local-domain logic, and to
    nothing else; no signal is assigned twice; and neither the
    transceiver's [rx_ready] nor one of the five transmit and seven
    receive ports of the link layer is assigned.  (What the submodules
    drive inside is not part of these statements.) *)
Theorem X24_satellite_signals_driven_once (trx : Transceiver)
    (channels : list Channel) (fine full : option Z) (n : nat) :
  uid (trx_rx_ready trx) < n →
  let r := __init__ supplied_resync link_width trx channels None fine full n in
  let sat := r.1.1 in
  ∃ g, r.1.2 = Default g ∧
    let gf := (GenericRXSynchronizer.do_finalize g r.2).1 in
    let driven :=
      driven_signals (comb sat ++ GenericRXSynchronizer.comb gf) in
    (∃ eb, GenericRXSynchronizer.submodules gf = [eb] ∧
           driven =
             [ rx_ready (link_layer sat);
               clk (cd_rio sat); rst (cd_rio sat);
               clk (cd_rio_phy sat); rst (cd_rio_phy sat);
               din eb ] ++ rx_ports (rps_link (wrapped (rt_packet sat)))) ∧
    drivers (comb sat ++ GenericRXSynchronizer.comb gf)
            (VSignal (rx_ready (link_layer sat)))
    = [VSignal (trx_rx_ready trx)] ∧
    NoDup (uid <$> driven) ∧
    (∀ s, s ∈ rx_ports (rps_link (wrapped (rt_packet sat))) →
          s ∈ driven_signals (GenericRXSynchronizer.comb gf)) ∧
    (trx_rx_ready trx ∉ driven) ∧
    (∀ s, s ∈ tx_ports (ports (link_layer sat)) → s ∉ driven) ∧
    (∀ s, s ∈ rx_ports (ports (link_layer sat)) → s ∉ driven).
Proof.
  intros Hold. cbn zeta.
  rewrite !(init_eq supplied_resync link_width trx channels None fine full
              n _ _ _ (make_link_layer_sync_default supplied_resync _ _)).
  cbn [fst snd comb link_layer rt_packet wrapped rps_link].
  eexists. split; [reflexivity|].
  unfold link_layer_at, LinkLayer_new, Migen.bind, Migen.ret, Signal_new,
    rx_ports, tx_ports, default_sync_ports.
  cbn -[Nat.add].
  split_and!.
  - eexists. split; reflexivity.
  - unfold drivers. cbn -[Nat.add].
    repeat case_decide; simplify_eq; try lia; reflexivity.
  - repeat (apply NoDup_cons; split;
            [intros Hin;
             repeat (apply elem_of_cons in Hin as [Hin|Hin]; [lia|]);
             by apply elem_of_nil in Hin|]).
    apply NoDup_nil_2.
  - intros s Hs.
    repeat (apply elem_of_cons in Hs as [->|Hs];
            [by repeat (first [apply list_elem_of_here
                              |apply list_elem_of_further])|]).
    by apply elem_of_nil in Hs.
  - intros Hin. absurd_member Hin.
  - intros s Hs Hin.
    repeat (apply elem_of_cons in Hs as [->|Hs]; [absurd_member Hin|]).
    by apply elem_of_nil in Hs.
  - intros s Hs Hin.
    repeat (apply elem_of_cons in Hs as [->|Hs]; [absurd_member Hin|]).
    by apply elem_of_nil in Hs.
Qed.

End SatelliteDrivers.

Lemma X24_satellite_witness :
  let trx := Drtio.mkTransceiver 0 [0; 1]
               (Migen.mkSignal 0 1 false None) in
  let r := Drtio.DRTIOSatellite.__init__
             (λ (s : unit) sig _, (sig, s, 0)) 8 trx ([] : list unit)
             None None None 1 in
  Migen.uid (Drtio.trx_rx_ready trx) < 1 ∧
  ∃ g, r.1.2 = Drtio.DRTIOSatellite.Default g ∧
       NoDup (Migen.uid <$> Migen.driven_signals
                (Drtio.DRTIOSatellite.comb r.1.1 ++
                 Drtio.GenericRXSynchronizer.comb
                   (Drtio.GenericRXSynchronizer.do_finalize g r.2).1)).
Proof.
  cbn zeta.
  assert (Hold : Migen.uid (Drtio.trx_rx_ready
                   (Drtio.mkTransceiver 0 [0; 1]
                      (Migen.mkSignal 0 1 false None))) < 1)
    by (cbn; lia).
  split; [exact Hold|].
  destruct (X24_satellite_signals_driven_once
              (λ (s : unit) sig _, (sig, s, 0)) 8
              (Drtio.mkTransceiver 0 [0; 1] (Migen.mkSignal 0 1 false None))
              ([] : list unit) None None 1 Hold)
    as (g & Hg & _ & _ & Hnd & _).
  exists g. split; [exact Hg|exact Hnd].
Defined.

Section MasterWiring.
Import Migen Drtio.

Context {S Channel : Type}.
Variable supplied_resync : S → Signal → nat → Signal * S * nat.
Variable link_width : nat.

(** X25: the master has no synchronizer between the link layer and its
    logic: the statistics, in the [rtio_rx] domain, read the link
    layer's own ports, and the controller, the manager and the
    auxiliary controller share the one packet engine and link layer.
    Its only statement drives the link layer's [rx_ready] from the
    transceiver's, which it does not drive itself.  A satellite with
    the default synchronizer, built in its place around the same
    transceiver, has the same link layer, and the receive ports the
    master reads directly are the signals that satellite registers with
    its synchronizer.  The channel count defaults to 1024. *)
Theorem X25_master_reads_link_layer_directly (trx : Transceiver)
    (channels : list Channel) (channel_count fine full : option Z)
    (n : nat) :
  uid (trx_rx_ready trx) < n →
  let m := (DRTIOMaster.__init__ link_width trx channel_count fine n).1 in
  let r := DRTIOSatellite.__init__ supplied_resync link_width trx channels
             None fine full n in
  lls_link (DRTIOMaster.link_stats m) = ports (DRTIOMaster.link_layer m) ∧
  lls_domain (DRTIOMaster.link_stats m) = "rtio_rx" ∧
  rpm_link (DRTIOMaster.rt_packet m) = DRTIOMaster.link_layer m ∧
  rtc_rt_packet (DRTIOMaster.rt_controller m) = DRTIOMaster.rt_packet m ∧
  rtm_rt_packet (DRTIOMaster.rt_manager m) = DRTIOMaster.rt_packet m ∧
  aux_link_layer (DRTIOMaster.aux_controller m)
  = DRTIOMaster.link_layer m ∧
  rtc_channel_count (DRTIOMaster.rt_controller m)
  = default 1024%Z channel_count ∧
  driven_signals (DRTIOMaster.comb m)
  = [rx_ready (DRTIOMaster.link_layer m)] ∧
  drivers (DRTIOMaster.comb m)
          (VSignal (rx_ready (DRTIOMaster.link_layer m)))
  = [VSignal (trx_rx_ready trx)] ∧
  (trx_rx_ready trx ∉ driven_signals (DRTIOMaster.comb m)) ∧
  DRTIOSatellite.link_layer r.1.1 = DRTIOMaster.link_layer m ∧
  ∃ g, r.1.2 = DRTIOSatellite.Default g ∧
       fst <$> GenericRXSynchronizer.signals g
       = rx_ports (lls_link (DRTIOMaster.link_stats m)).
Proof.
  intros Hold. cbn zeta.
  rewrite !(init_eq supplied_resync link_width trx channels None fine full
              n _ _ _ (make_link_layer_sync_default supplied_resync _ _)).
  unfold DRTIOMaster.__init__, Migen.bind at 1.
  change (LinkLayer_new link_width (encoder trx) (decoders trx) n)
    with (link_layer_at link_width trx n, 13 + n).
  cbn [fst snd Migen.ret DRTIOMaster.link_stats DRTIOMaster.link_layer
       DRTIOMaster.rt_packet DRTIOMaster.rt_controller
       DRTIOMaster.rt_manager DRTIOMaster.aux_controller DRTIOMaster.comb
       DRTIOSatellite.link_layer lls_link lls_domain rpm_link rtc_rt_packet
       rtm_rt_packet aux_link_layer rtc_channel_count].
  split_and!; try reflexivity.
  - unfold drivers. cbn. by rewrite decide_True.
  - cbn. intros Hin%list_elem_of_singleton.
    apply (f_equal uid) in Hin. cbn in Hin. lia.
  - eexists. split; [reflexivity|]. reflexivity.
Qed.

End MasterWiring.

Lemma X25_master_witness :
  let trx := Drtio.mkTransceiver 0 [0; 1]
               (Migen.mkSignal 0 1 false None) in
  let m := (Drtio.DRTIOMaster.__init__ 8 trx None None 1).1 in
  Migen.uid (Drtio.trx_rx_ready trx) < 1 ∧
  Drtio.lls_link (Drtio.DRTIOMaster.link_stats m)
  = Drtio.ports (Drtio.DRTIOMaster.link_layer m).
Proof.
  cbn zeta.
  assert (Hold : Migen.uid (Drtio.trx_rx_ready
                   (Drtio.mkTransceiver 0 [0; 1]
                      (Migen.mkSignal 0 1 false None))) < 1)
    by (cbn; lia).
  split; [exact Hold|].
  exact (proj1 (X25_master_reads_link_layer_directly
                  (λ (s : unit) sig _, (sig, s, 0)) 8
                  (Drtio.mkTransceiver 0 [0; 1]
                     (Migen.mkSignal 0 1 false None))
                  ([] : list unit) None None None 1 Hold)).
Defined.
